(** * Input of weights (FIASCO, [input/weights.c])

    A shallow embedding of [read_weights] and of the three passes it is made
    of: the scan that computes the level ranges and the offsets of the
    probability model, the pass that fills the array of contexts, the set-up
    of the alphabet sizes, and the pass that writes the decoded weights back
    into the transitions of the WFA. *)

From Stdlib Require Import ZArith QArith Qround Strings.Byte Lia.
From stdpp Require Import base option list gmap strings.

Local Open Scope Z_scope.

(** ** Machine arithmetic *)

(** Values of type [unsigned] are kept as integers reduced modulo 2^32. *)
Definition wrap32 (z : Z) : Z := z mod 2 ^ 32.

(** Conversion of a real to an integer type: the fraction is discarded
    (truncation toward zero).  Reals are kept as rationals; every value that
    occurs in the statements below is a dyadic rational on which the
    arithmetic of [real_t] is exact. *)
Definition real_to_int (q : Q) : Z := Z.quot (Qnum q) (Z.pos (Qden q)).

(** Conversion to [word_t], the 16-bit signed type of the cells of
    [int_weight] and of the pixels of an image: a value that fits is kept,
    any other is reduced modulo 2^16 into the range of the type. *)
Definition to_word (v : Z) : Z := (v + 2 ^ 15) mod 2 ^ 16 - 2 ^ 15.

(** The value stored in [int_weight]: [weight_val * 512 + 0.5], converted
    to the type of the cell.  A value within the range of the cell is
    truncated toward zero; one outside of it comes out reduced modulo 2^16,
    as the conversion through [int] leaves it. *)
Definition fixed_point (weight_val : Q) : Z :=
  to_word (real_to_int (weight_val * 512 + (1 # 2))%Q).

(** Rounding to the nearest integer, halves away from zero. *)
Definition round_nearest (q : Q) : Z :=
  if Qle_bool 0 q then Qfloor (q + (1 # 2))%Q else Qceiling (q - (1 # 2))%Q.

(** ** Outcome of a call *)

(** A pass either completes, or stops in [error ("Can't read more than %d
    weights.")] (recorded with the position of the edge at which it was
    raised), or loads from or stores to outside of an allocated block, where
    the behaviour of the call is not defined. *)
Inductive result (A : Type) : Type :=
  | Done (a : A)
  | CountOverflow (state label edge : nat)
  | OutOfBounds.
Arguments Done {A} a.
Arguments CountOverflow {A} state label edge.
Arguments OutOfBounds {A}.

Definition bind {A B} (r : result A) (k : A -> result B) : result B :=
  match r with
  | Done a => k a
  | CountOverflow s l e => CountOverflow s l e
  | OutOfBounds => OutOfBounds
  end.

Notation "'let*' x ':=' r 'in' k" := (bind r (fun x => k))
  (at level 10, x pattern, r at level 100, k at level 200).

(** A loop over the elements of [xs] whose body may stop the call. *)
Fixpoint for_each {A S} (body : A -> S -> result S) (xs : list A) (s : S)
  : result S :=
  match xs with
  | [] => Done s
  | x :: xs' => let* s' := body x s in for_each body xs' s'
  end.

(** [fiasco_calloc (n, size)]: a block of [n] zero cells. *)
Definition fiasco_calloc (n : nat) : list Z := replicate n 0.

(** [arr [i] = v] on a block of [length arr] cells.  A store outside of the
    block does not reach any of its cells. *)
Definition store_at (i : Z) (v : Z) (arr : list Z) : list Z :=
  if bool_decide (0 <= i < Z.of_nat (length arr))
  then <[Z.to_nat i := v]> arr
  else arr.

(** A block together with the indices that have been stored to, in order:
    this is how the bounds of the stores are kept track of. *)
Record block_t : Type := { cells : list Z; stored : list Z }.

Definition block_store (i : Z) (v : Z) (b : block_t) : block_t :=
  {| cells := store_at i v (cells b); stored := stored b ++ [i] |}.

(** Every store went to a cell of the block. *)
Definition in_bounds (b : block_t) : Prop :=
  Forall (fun i => 0 <= i < Z.of_nat (length (cells b))) (stored b).

(** The same as a test. *)
Definition stores_in_bounds (b : block_t) : bool :=
  forallb (fun i => (0 <=? i) && (i <? Z.of_nat (length (cells b))))
    (stored b).

(** ** What the headers provide

    [read_weights] takes constants, macros, types and functions from
    [wfa.h], [macros.h], [rpf.h], [arith.h] and [bit-io.h].  They are not
    embedded; they are the fields of this interface. *)
Class externals : Type := {
  (** [MAXLEVEL], the bound on the level of a state: a positive constant *)
  MAXLEVEL : positive;
  (** [MAXLABELS], the number of labels of a state *)
  MAXLABELS : nat;
  (** [isrange (x)] on an entry of [tree] *)
  isrange : Z -> bool;
  (** [isedge (x)] on an entry of [into] *)
  isedge : Z -> bool;
  (** the reduced precision format with its number of mantissa bits *)
  rpf_t : Type;
  mantissa_bits : rpf_t -> N;
  (** [btor (binary, rpf)]: value of a symbol in a given format *)
  btor : Z -> rpf_t -> Q;
  (** the input stream and the arithmetic decoder
      [decode_array (input, context, c_symbols, n_context, n_data, scaling)];
      the decoder reads on from where the stream stands and moves it: a value
      of [bitfile_t] is the stream as one call finds it, and one call is what
      is modelled *)
  bitfile_t : Type;
  decode_array : bitfile_t -> list Z -> list Z -> Z -> nat -> Z -> list Z
}.

Section Model.
Context `{E : externals}.

(** ** The automaton *)

Record wfa_info_t : Type := {
  rpf : rpf_t;        (** AC, normal approximation *)
  dc_rpf : rpf_t;     (** DC, normal approximation *)
  d_rpf : rpf_t;      (** AC, delta approximation *)
  d_dc_rpf : rpf_t    (** DC, delta approximation *)
}.

(** Arrays indexed by state (and label) are functions; a row
    [into [state][label]] is the list of its [MAXEDGES + 1] entries;
    [level_of_state] has elements of type [byte_t]; the two arrays of
    weights are finite maps from (state, label, edge) to the value stored. *)
Record wfa_t : Type := {
  wfainfo : wfa_info_t;
  states : nat;
  basis_states : nat;
  level_of_state : nat -> byte;
  delta_state : nat -> bool;
  tree : nat -> nat -> Z;
  into : nat -> nat -> list Z;
  weight : gmap (nat * nat * nat) Q;
  int_weight : gmap (nat * nat * nat) Z
}.

(** [wfa->level_of_state [state] - 1], an [int]. *)
Definition level_m1 (wfa : wfa_t) (state : nat) : Z :=
  Z.of_N (Byte.to_N (level_of_state wfa state)) - 1.

(** The states visited by [for (state = wfa->basis_states;
    state < wfa->states; state++)] and the labels visited by
    [for (label = 0; label < MAXLABELS; label++)]. *)
Definition state_loop (wfa : wfa_t) : list nat :=
  seq (basis_states wfa) (states wfa - basis_states wfa).
Definition label_loop : list nat := seq 0 MAXLABELS.

(** ** Has delta approximation been used?  (lines 71-76) *)
Definition delta_approx (wfa : wfa_t) : bool :=
  existsb (delta_state wfa) (state_loop wfa).

(** ** First pass: minimum and maximum level, DC flags  (lines 91-119) *)

Record scan_t : Type := {
  min_level : Z; max_level : Z;
  d_min_level : Z; d_max_level : Z;
  dc : bool; d_dc : bool
}.

Definition scan_init : scan_t :=
  {| min_level := Z.pos MAXLEVEL; max_level := 0;
     d_min_level := Z.pos MAXLEVEL; d_max_level := 0;
     dc := false; d_dc := false |}.

(** [wfa->into [state][label][0] == 0] *)
Definition first_is_dc (wfa : wfa_t) (state label : nat) : bool :=
  match into wfa state label with
  | domain :: _ => domain =? 0
  | [] => false
  end.

Definition scan_label (wfa : wfa_t) (da : bool) (state : nat)
    (acc : scan_t) (label : nat) : scan_t :=
  if isrange (tree wfa state label) then
    if da && delta_state wfa state then
      {| min_level := min_level acc; max_level := max_level acc;
         d_min_level := Z.min (d_min_level acc) (level_m1 wfa state);
         d_max_level := Z.max (d_max_level acc) (level_m1 wfa state);
         dc := dc acc;
         d_dc := if first_is_dc wfa state label then true else d_dc acc |}
    else
      {| min_level := Z.min (min_level acc) (level_m1 wfa state);
         max_level := Z.max (max_level acc) (level_m1 wfa state);
         d_min_level := d_min_level acc; d_max_level := d_max_level acc;
         dc := if first_is_dc wfa state label then true else dc acc;
         d_dc := d_dc acc |}
  else acc.

Definition scan_state (wfa : wfa_t) (da : bool) (acc : scan_t) (state : nat)
  : scan_t :=
  fold_left (scan_label wfa da state) label_loop acc.

Definition scan_levels (wfa : wfa_t) : scan_t :=
  fold_left (scan_state wfa (delta_approx wfa)) (state_loop wfa) scan_init.

(** [if (min_level > max_level) max_level = min_level - 1;] (no lc found) *)
Definition close_range (lo hi : Z) : Z := if lo >? hi then lo - 1 else hi.

Definition close_ranges (sc : scan_t) : scan_t :=
  {| min_level := min_level sc;
     max_level := close_range (min_level sc) (max_level sc);
     d_min_level := d_min_level sc;
     d_max_level := close_range (d_min_level sc) (d_max_level sc);
     dc := dc sc; d_dc := d_dc sc |}.

(** The result of the first pass, as the later passes see it. *)
Definition first_pass (wfa : wfa_t) : scan_t := close_ranges (scan_levels wfa).

(** ** Offsets of the probability models  (lines 121-124) *)

Record offsets_t : Type := {
  offset1 : Z; offset2 : Z; offset3 : Z; offset4 : Z
}.

Definition offsets_of (sc : scan_t) : offsets_t :=
  let o1 := if dc sc then 1 else 0 in
  let o2 := wrap32 (o1 + (if d_dc sc then 1 else 0)) in
  let o3 := wrap32 (o2 + (max_level sc - min_level sc + 1)) in
  let o4 := wrap32 (o3 + (d_max_level sc - d_min_level sc + 1)) in
  {| offset1 := o1; offset2 := o2; offset3 := o3; offset4 := o4 |}.

Definition offsets (wfa : wfa_t) : offsets_t := offsets_of (first_pass wfa).

(** ** Second pass: the array of contexts  (lines 126-147) *)

(** The value written through [*lptr++] for an edge with domain [domain];
    the sums are computed in type [unsigned]. *)
Definition context_of (wfa : wfa_t) (da : bool) (sc : scan_t)
    (offs : offsets_t) (state : nat) (domain : Z) : Z :=
  if negb (domain =? 0) then
    if da && delta_state wfa state
    then wrap32 (offset3 offs + Z.of_N (Byte.to_N (level_of_state wfa state))
                 - 1 - d_min_level sc)
    else wrap32 (offset2 offs + Z.of_N (Byte.to_N (level_of_state wfa state))
                 - 1 - min_level sc)
  else if da && delta_state wfa state then offset1 offs else 0.

(** The loop over the edges of one row.  The state of the pass is the
    distance [lptr - level_array] together with the array.  The scan ends at
    the first entry that is not an edge (or with the row). *)
Fixpoint classify_row (total : nat) (ctx : Z -> Z) (state label : nat)
    (row : list Z) (edge : nat) (st : nat * list Z)
  : result (nat * list Z) :=
  match row with
  | [] => Done st
  | domain :: rest =>
      if isedge domain then
        if (total <=? fst st)%nat then CountOverflow state label edge
        else
          classify_row total ctx state label rest (S edge)
            (S (fst st), store_at (Z.of_nat (fst st)) (ctx domain) (snd st))
      else Done st
  end.

Definition classify_label (total : nat) (wfa : wfa_t) (da : bool)
    (sc : scan_t) (offs : offsets_t) (state label : nat) (st : nat * list Z)
  : result (nat * list Z) :=
  if isrange (tree wfa state label)
  then classify_row total (context_of wfa da sc offs state) state label
         (into wfa state label) 0 st
  else Done st.

Definition classify_state (total : nat) (wfa : wfa_t) (da : bool)
    (sc : scan_t) (offs : offsets_t) (state : nat) (st : nat * list Z)
  : result (nat * list Z) :=
  for_each (classify_label total wfa da sc offs state) label_loop st.

(** The pass as a whole returns [level_array]. *)
Definition second_pass (total : nat) (wfa : wfa_t) : result (list Z) :=
  let da := delta_approx wfa in
  let sc := first_pass wfa in
  let offs := offsets_of sc in
  let* st := for_each (classify_state total wfa da sc offs) (state_loop wfa)
               (0%nat, fiasco_calloc total) in
  Done (snd st).

(** ** Sizes of the alphabets  (lines 155-165) *)

(** [1 << (rpf->mantissa_bits + 1)], stored in an [unsigned]. *)
Definition symbol_count (r : rpf_t) : Z :=
  wrap32 (Z.shiftl 1 (Z.of_N (mantissa_bits r) + 1)).

(** [for (; i < bound; i++) c_symbols [i] = v;] returning the final [i]. *)
Fixpoint fill_upto (fuel : nat) (i bound : Z) (v : Z) (b : block_t)
  : Z * block_t :=
  match fuel with
  | O => (i, b)
  | S fuel' =>
      if i <? bound
      then fill_upto fuel' (i + 1) bound v (block_store i v b)
      else (i, b)
  end.

Definition fill_loop (i bound : Z) (v : Z) (b : block_t) : Z * block_t :=
  fill_upto (Z.to_nat (bound - i)) i bound v b.

(** The block [c_symbols] as it is handed to the decoder. *)
Definition alphabet (info : wfa_info_t) (offs : offsets_t) : block_t :=
  let c0 := {| cells := fiasco_calloc (Z.to_nat (offset4 offs));
               stored := [] |} in
  let c1 := block_store 0 (symbol_count (dc_rpf info)) c0 in
  let c2 := if negb (offset1 offs =? offset2 offs)
            then block_store (offset1 offs) (symbol_count (d_dc_rpf info)) c1
            else c1 in
  let '(i, c3) := fill_loop (offset2 offs) (offset3 offs)
                    (symbol_count (rpf info)) c2 in
  let '(_, c4) := fill_loop i (offset4 offs) (symbol_count (d_rpf info)) c3 in
  c4.

(** ** Third pass: update the transitions with the decoded weights
    (lines 177-210) *)

(** The format selected for an edge. *)
Definition rpf_of (wfa : wfa_t) (da : bool) (state : nat) (domain : Z)
  : rpf_t :=
  if negb (domain =? 0) then
    if da && delta_state wfa state
    then d_rpf (wfainfo wfa) else rpf (wfainfo wfa)
  else
    if da && delta_state wfa state
    then d_dc_rpf (wfainfo wfa) else dc_rpf (wfainfo wfa).

(** The two arrays of weights, as the pass updates them. *)
Record weights_t : Type := {
  w_real : gmap (nat * nat * nat) Q;
  w_int : gmap (nat * nat * nat) Z
}.

Definition set_weight (pos : nat * nat * nat) (weight_val : Q)
    (ws : weights_t) : weights_t :=
  {| w_real := <[pos := weight_val]> (w_real ws);
     w_int := <[pos := fixed_point weight_val]> (w_int ws) |}.

(** The loop over the edges of one row; the state of the pass is the
    distance [wptr - weights_array] together with the arrays of weights.
    The checkpoint line that the loop prints for every edge is left out. *)
Fixpoint update_row (wfa : wfa_t) (da : bool) (weights_array : list Z)
    (state label : nat) (row : list Z) (edge : nat) (st : nat * weights_t)
  : result (nat * weights_t) :=
  match row with
  | [] => Done st
  | domain :: rest =>
      if isedge domain then
        match weights_array !! fst st with
        | None => OutOfBounds
        | Some sym =>
            let weight_val := btor sym (rpf_of wfa da state domain) in
            update_row wfa da weights_array state label rest (S edge)
              (S (fst st), set_weight (state, label, edge) weight_val (snd st))
        end
      else Done st
  end.

Definition update_label (wfa : wfa_t) (da : bool) (weights_array : list Z)
    (state label : nat) (st : nat * weights_t) : result (nat * weights_t) :=
  if isrange (tree wfa state label)
  then update_row wfa da weights_array state label (into wfa state label) 0 st
  else Done st.

Definition update_state (wfa : wfa_t) (da : bool) (weights_array : list Z)
    (state : nat) (st : nat * weights_t) : result (nat * weights_t) :=
  for_each (update_label wfa da weights_array state) label_loop st.

Definition with_weights (wfa : wfa_t) (ws : weights_t) : wfa_t :=
  {| wfainfo := wfainfo wfa; states := states wfa;
     basis_states := basis_states wfa;
     level_of_state := level_of_state wfa; delta_state := delta_state wfa;
     tree := tree wfa; into := into wfa;
     weight := w_real ws; int_weight := w_int ws |}.

Definition third_pass (wfa : wfa_t) (weights_array : list Z)
  : result wfa_t :=
  let* st := for_each (update_state wfa (delta_approx wfa) weights_array)
               (state_loop wfa)
               (0%nat, {| w_real := weight wfa; w_int := int_weight wfa |}) in
  Done (with_weights wfa (snd st)).

(** ** [read_weights] *)

(** [scale], the scaling of the probability model. *)
Definition scale : Z := 500.

(** The stores of lines 158-165 go to [c_symbols] before the decoder is
    called: one of them outside of the block ends the defined behaviour of
    the call. *)
Definition read_weights (total : nat) (wfa : wfa_t) (input : bitfile_t)
  : result wfa_t :=
  let offs := offsets wfa in
  let* level_array := second_pass total wfa in
  let c_symbols := alphabet (wfainfo wfa) offs in
  if stores_in_bounds c_symbols then
    let weights_array :=
      decode_array input level_array (cells c_symbols) (offset4 offs) total
        scale in
    third_pass wfa weights_array
  else OutOfBounds.

(** ** The traversal, spelled out

    The qualifying edges in the order of the nested loops: states in
    ascending order from [basis_states], labels in ascending order among
    those that are ranges, edges in ascending order up to the terminator. *)

Record edge_ref : Type := {
  e_state : nat; e_label : nat; e_edge : nat; e_domain : Z
}.

Definition e_pos (e : edge_ref) : nat * nat * nat :=
  (e_state e, e_label e, e_edge e).

Fixpoint row_edges (state label : nat) (edge : nat) (row : list Z)
  : list edge_ref :=
  match row with
  | [] => []
  | domain :: rest =>
      if isedge domain
      then {| e_state := state; e_label := label; e_edge := edge;
              e_domain := domain |} :: row_edges state label (S edge) rest
      else []
  end.

Definition label_edges (wfa : wfa_t) (state label : nat) : list edge_ref :=
  if isrange (tree wfa state label)
  then row_edges state label 0 (into wfa state label)
  else [].

Definition state_edges (wfa : wfa_t) (state : nat) : list edge_ref :=
  label_loop ≫= label_edges wfa state.

Definition qualifying_edges (wfa : wfa_t) : list edge_ref :=
  state_loop wfa ≫= state_edges wfa.

(** What the second pass does at one edge of the traversal. *)
Definition classify_edge (total : nat) (ctx : nat -> Z -> Z) (e : edge_ref)
    (st : nat * list Z) : result (nat * list Z) :=
  if (total <=? fst st)%nat
  then CountOverflow (e_state e) (e_label e) (e_edge e)
  else
    Done (S (fst st),
          store_at (Z.of_nat (fst st)) (ctx (e_state e) (e_domain e))
            (snd st)).

(** The contexts of a list of edges. *)
Definition ctx_ids (ctx : nat -> Z -> Z) (es : list edge_ref) : list Z :=
  (fun e => ctx (e_state e) (e_domain e)) <$> es.

(** What the third pass does at one edge of the traversal. *)
Definition update_edge (wfa : wfa_t) (da : bool) (weights_array : list Z)
    (e : edge_ref) (st : nat * weights_t) : result (nat * weights_t) :=
  match weights_array !! fst st with
  | None => OutOfBounds
  | Some sym =>
      Done (S (fst st),
            set_weight (e_pos e)
              (btor sym (rpf_of wfa da (e_state e) (e_domain e))) (snd st))
  end.

(** The (state, label) pairs whose label is a range, in loop order, and
    those of one class (delta or not). *)
Definition state_ranges (wfa : wfa_t) (state : nat) : list (nat * nat) :=
  label_loop ≫= (fun label => if isrange (tree wfa state label)
                               then [(state, label)] else []).

Definition range_labels (wfa : wfa_t) : list (nat * nat) :=
  state_loop wfa ≫= state_ranges wfa.

Definition class_ranges (wfa : wfa_t) (delta : bool) : list (nat * nat) :=
  filter (fun sl => delta_state wfa sl.1 = delta) (range_labels wfa).

(** ** The four classes of contexts *)

Inductive class_t : Type :=
  | DC       (** domain 0, normal approximation *)
  | D_DC     (** domain 0, delta approximation *)
  | AC       (** domain not 0, normal approximation *)
  | D_AC.    (** domain not 0, delta approximation *)

#[global] Instance class_eq_dec : EqDecision class_t.
Proof. solve_decision. Defined.

Definition class_of (wfa : wfa_t) (e : edge_ref) : class_t :=
  match e_domain e =? 0, delta_state wfa (e_state e) with
  | true, false => DC
  | true, true => D_DC
  | false, false => AC
  | false, true => D_AC
  end.

Definition model_of (info : wfa_info_t) (c : class_t) : rpf_t :=
  match c with
  | DC => dc_rpf info
  | D_DC => d_dc_rpf info
  | AC => rpf info
  | D_AC => d_rpf info
  end.

(** The weights written for a list of edges paired with their symbols. *)
Definition write_edge (wfa : wfa_t) (ws : weights_t) (es : edge_ref * Z)
  : weights_t :=
  set_weight (e_pos es.1)
    (btor es.2 (model_of (wfainfo wfa) (class_of wfa es.1))) ws.

Definition write_edges (wfa : wfa_t) (edges : list edge_ref) (syms : list Z)
    (ws : weights_t) : weights_t :=
  fold_left (write_edge wfa) (zip edges syms) ws.

(** The context id of an edge, as integers (no reduction modulo 2^32). *)
Definition context_id (wfa : wfa_t) (e : edge_ref) : Z :=
  let level := Z.of_N (Byte.to_N (level_of_state wfa (e_state e))) in
  match class_of wfa e with
  | DC => 0
  | D_DC => offset1 (offsets wfa)
  | AC => offset2 (offsets wfa) + (level - 1 - min_level (first_pass wfa))
  | D_AC => offset3 (offsets wfa) + (level - 1 - d_min_level (first_pass wfa))
  end.

(** The contexts handed to the decoder when the budget exceeds the number
    of qualifying edges by [extra]. *)
Definition contexts (wfa : wfa_t) (extra : nat) : list Z :=
  (context_id wfa <$> qualifying_edges wfa) ++ replicate extra 0.

(** The model whose alphabet the decoder is given for a context id. *)
Definition model_of_id (info : wfa_info_t) (offs : offsets_t) (id : Z)
  : rpf_t :=
  if id <? offset1 offs then dc_rpf info
  else if id <? offset2 offs then d_dc_rpf info
  else if id <? offset3 offs then rpf info
  else d_rpf info.


(** Minimum and maximum of a list of levels, from the initial values of the
    scan. *)
Definition least (init : Z) (l : list Z) : Z := fold_left Z.min l init.
Definition greatest (init : Z) (l : list Z) : Z := fold_left Z.max l init.

(** The levels and the DC flag that a list of range labels contributes to
    a class. *)
Definition levels_in (wfa : wfa_t) (delta : bool) (rl : list (nat * nat))
  : list Z :=
  (fun sl => level_m1 wfa sl.1)
    <$> filter (fun sl => delta_state wfa sl.1 = delta) rl.

Definition dc_in (wfa : wfa_t) (delta : bool) (rl : list (nat * nat))
  : bool :=
  existsb (fun sl => first_is_dc wfa sl.1 sl.2)
    (filter (fun sl => delta_state wfa sl.1 = delta) rl).

(** The update of the scan at one label that is a range. *)
Definition scan_step (wfa : wfa_t) (acc : scan_t) (sl : nat * nat) : scan_t :=
  if delta_state wfa sl.1 then
    {| min_level := min_level acc; max_level := max_level acc;
       d_min_level := Z.min (d_min_level acc) (level_m1 wfa sl.1);
       d_max_level := Z.max (d_max_level acc) (level_m1 wfa sl.1);
       dc := dc acc;
       d_dc := if first_is_dc wfa sl.1 sl.2 then true else d_dc acc |}
  else
    {| min_level := Z.min (min_level acc) (level_m1 wfa sl.1);
       max_level := Z.max (max_level acc) (level_m1 wfa sl.1);
       d_min_level := d_min_level acc; d_max_level := d_max_level acc;
       dc := if first_is_dc wfa sl.1 sl.2 then true else dc acc;
       d_dc := d_dc acc |}.

(** A flag as a number. *)
Definition flag (b : bool) : Z := if b then 1 else 0.

(** Minimum and maximum level of a class in the result of a scan. *)
Definition class_min (sc : scan_t) (delta : bool) : Z :=
  if delta then d_min_level sc else min_level sc.
Definition class_max (sc : scan_t) (delta : bool) : Z :=
  if delta then d_max_level sc else max_level sc.
Definition class_dc (sc : scan_t) (delta : bool) : bool :=
  if delta then d_dc sc else dc sc.

(** The first pass as a scan over the labels that are ranges: the level
    range of a class covers every range label of a state of that class, and
    its DC flag is raised by a domain 0 at edge position 0. *)
Definition scan_of_ranges (wfa : wfa_t) : scan_t :=
  let rl := range_labels wfa in
  {| min_level := least (Z.pos MAXLEVEL) (levels_in wfa false rl);
     max_level := greatest 0 (levels_in wfa false rl);
     d_min_level := least (Z.pos MAXLEVEL) (levels_in wfa true rl);
     d_max_level := greatest 0 (levels_in wfa true rl);
     dc := dc_in wfa false rl; d_dc := dc_in wfa true rl |}.

(** The first pass as a scan over the edges: the level range of a class
    covers exactly its edges with a domain other than 0, and its DC flag is
    raised by any edge with domain 0. *)
Definition scan_of_edges (wfa : wfa_t) : scan_t :=
  let ac (delta : bool) := filter (fun e => class_of wfa e = (if delta then D_AC else AC))
                    (qualifying_edges wfa) in
  let lv (delta : bool) := (fun e => level_m1 wfa (e_state e)) <$> ac delta in
  let fl (delta : bool) :=
    existsb (fun e => bool_decide (class_of wfa e = (if delta then D_DC else DC)))
      (qualifying_edges wfa) in
  {| min_level := least (Z.pos MAXLEVEL) (lv false);
     max_level := greatest 0 (lv false);
     d_min_level := least (Z.pos MAXLEVEL) (lv true);
     d_max_level := greatest 0 (lv true);
     dc := fl false; d_dc := fl true |}.

(** Is there an edge with domain 0 in a class? *)
Definition dc_edge_exists (wfa : wfa_t) (delta : bool) : bool :=
  existsb (fun e => bool_decide (class_of wfa e = (if delta then D_DC else DC)))
    (qualifying_edges wfa).

(** Is there an edge with a domain other than 0 in a class? *)
Definition ac_edge_exists (wfa : wfa_t) (delta : bool) : bool :=
  existsb (fun e => bool_decide (class_of wfa e = (if delta then D_AC else AC)))
    (qualifying_edges wfa).

(** The arrays of weights on entry. *)
Definition weights_of (wfa : wfa_t) : weights_t :=
  {| w_real := weight wfa; w_int := int_weight wfa |}.

(** The contract of the arithmetic decoder: it delivers [n_data] symbols. *)
Definition decoder_delivers : Prop :=
  forall input context c_symbols n_context n_data scaling,
    length (decode_array input context c_symbols n_context n_data scaling)
    = n_data.


End Model.

(** ** A concrete setting

    The values of FIASCO for the constants and macros, a reduced precision
    format given by its number of mantissa bits, a sign-and-magnitude
    reading of the symbols, and a decoder that returns the contexts it was
    given. *)

Definition sample_btor (binary : Z) (bits : N) : Q :=
  let magnitude := (inject_Z (Z.shiftr binary 1 + 1) / inject_Z (2 ^ Z.of_N bits))%Q in
  if Z.odd binary then (- magnitude)%Q else magnitude.

Definition sample_decode (input : unit) (context c_symbols : list Z)
    (n_context : Z) (n_data : nat) (scaling : Z) : list Z :=
  take n_data (context ++ replicate n_data 0).

Definition fiasco : externals :=
  {| MAXLEVEL := 22; MAXLABELS := 2;
     isrange := fun x => x =? -1;
     isedge := fun x => negb (x =? -1);
     rpf_t := N; mantissa_bits := fun bits => bits;
     btor := sample_btor;
     bitfile_t := unit; decode_array := sample_decode |}.

Definition sample_rpf (bits : N) : @rpf_t fiasco := bits.
Definition sample_input : @bitfile_t fiasco := tt.

Definition sample_info : @wfa_info_t fiasco :=
  {| rpf := sample_rpf 3; dc_rpf := sample_rpf 5;
     d_rpf := sample_rpf 4; d_dc_rpf := sample_rpf 6 |}.

(** An automaton with [basis] basis states and one further state per
    element of [rows]: its level, its delta flag and the rows of domains of
    its two labels, both ranges. *)
Definition sample_wfa (basis : nat)
    (rows : list (byte * bool * list Z * list Z)) : @wfa_t fiasco :=
  let at_state (state : nat) := rows !! (state - basis)%nat in
  {| wfainfo := sample_info;
     states := (basis + length rows)%nat; basis_states := basis;
     level_of_state := fun state =>
       match at_state state with Some (lv, _, _, _) => lv | None => x00 end;
     delta_state := fun state =>
       match at_state state with Some (_, d, _, _) => d | None => false end;
     tree := fun state label =>
       match at_state state with Some _ => -1 | None => 0 end;
     into := fun state label =>
       match at_state state with
       | Some (_, _, r0, r1) => if (label =? 0)%nat then r0 else r1
       | None => [-1]
       end;
     weight := ∅; int_weight := ∅ |}.

(** One state at level 3 whose first label has a DC and an AC edge. *)
Definition wfa_dc_ac : @wfa_t fiasco :=
  sample_wfa 2 [(x03, false, [0; 7; -1], [-1])].

(** One state at level 3 with a DC edge only. *)
Definition wfa_dc_only : @wfa_t fiasco :=
  sample_wfa 2 [(x03, false, [0; -1], [-1])].

(** One state at level 3 with an AC edge only. *)
Definition wfa_ac_only : @wfa_t fiasco :=
  sample_wfa 2 [(x03, false, [7; -1], [-1])].

(** One state at level 3 whose row lists the AC edge before the DC edge. *)
Definition wfa_ac_dc : @wfa_t fiasco :=
  sample_wfa 2 [(x03, false, [7; 0; -1], [-1])].

(** A normal state at level 4 and a delta state at level 6. *)
Definition wfa_mixed : @wfa_t fiasco :=
  sample_wfa 2 [(x04, false, [0; 3; -1], [5; -1]);
                (x06, true, [0; 1; 2; -1], [-1])].




(** ** A convention on rows

    The first pass looks for a DC edge at edge position 0 only: rows are
    expected to list the edge with domain 0, if there is one, first. *)
Section Conventions.
Context `{E : externals}.

Definition dc_first (wfa : wfa_t) : bool :=
  forallb (fun e => negb (e_domain e =? 0) || (e_edge e =? 0)%nat)
    (qualifying_edges wfa).

End Conventions.

(** * Conversion of images in the Python binding ([msvc/pyfiasco.cpp])

    [numpy_to_image] (lines 35-87) and [image_to_numpy] (lines 90-138). *)

(** A call returns, throws a [std::runtime_error], or loads from outside of
    a buffer. *)
Inductive outcome (A : Type) : Type :=
  | Returns (a : A)
  | Throws (what : string)
  | WildLoad.
Arguments Returns {A} a.
Arguments Throws {A} what.
Arguments WildLoad {A}.

Definition and_then {A B} (r : outcome A) (k : A -> outcome B) : outcome B :=
  match r with
  | Returns a => k a
  | Throws what => Throws what
  | WildLoad => WildLoad
  end.

Notation "'do*' x ':=' r 'in' k" := (and_then r (fun x => k))
  (at level 10, x pattern, r at level 100, k at level 200).

Fixpoint each {A S} (body : A -> S -> outcome S) (xs : list A) (s : S)
  : outcome S :=
  match xs with
  | [] => Returns s
  | x :: xs' => do* s' := body x s in each body xs' s'
  end.

(** [v >> 8] on an [int]. *)
Definition asr8 (v : Z) : Z := Z.shiftr v 8.

(** [static_cast<word_t>] is [to_word]; [static_cast<uint8_t>]: *)
Definition to_uint8 (v : Z) : byte :=
  default x00 (Byte.of_N (Z.to_N (v mod 256))).

Definition byte_val (b : byte) : Z := Z.of_N (Byte.to_N b).

(** RGB to YCbCr (lines 61-63). *)
Definition luma (R G B : Z) : Z := asr8 (66 * R + 129 * G + 25 * B + 128) + 16.
Definition chroma_blue (R G B : Z) : Z :=
  asr8 (-38 * R - 74 * G + 112 * B + 128) + 128.
Definition chroma_red (R G B : Z) : Z :=
  asr8 (112 * R - 94 * G - 18 * B + 128) + 128.

(** YCbCr to RGB (lines 108-114) and the clamp to [[0, 255]]
    (lines 117-119). *)
Definition red_of (p0 p1 p2 : Z) : Z :=
  asr8 (298 * (p0 - 16) + 409 * (p2 - 128) + 128).
Definition green_of (p0 p1 p2 : Z) : Z :=
  asr8 (298 * (p0 - 16) - 100 * (p1 - 128) - 208 * (p2 - 128) + 128).
Definition blue_of (p0 p1 p2 : Z) : Z :=
  asr8 (298 * (p0 - 16) + 516 * (p1 - 128) + 128).

Definition clamp255 (v : Z) : Z := Z.max 0 (Z.min 255 v).

(** The buffer of a numpy array of bytes with its shape, and an image with
    its three bands of pixels (the bands 1 and 2 of a grayscale image are
    absent). *)
Record ndarray : Type := { shape : list Z; buffer : list byte }.

Record image_t : Type := {
  width : Z; height : Z; color : bool;
  band0 : list Z; band1 : list Z; band2 : list Z
}.

(** [arr [i] = v], for any type of cells. *)
Definition poke {A} (i : Z) (v : A) (arr : list A) : list A :=
  if bool_decide (0 <= i < Z.of_nat (length arr))
  then <[Z.to_nat i := v]> arr
  else arr.

(** [arr [i]] *)
Definition peek {A} (arr : list A) (i : Z) : outcome A :=
  if bool_decide (0 <= i)
  then match arr !! Z.to_nat i with
       | Some v => Returns v
       | None => WildLoad
       end
  else WildLoad.

(** [for (y = 0; y < height; y++) for (x = 0; x < width; x++)] on
    [unsigned] counters. *)
Definition pixel_loop {S} (width height : Z) (body : nat -> nat -> S -> outcome S)
    (s : S) : outcome S :=
  each (fun y => each (body y) (seq 0 (Z.to_nat width)))
    (seq 0 (Z.to_nat height)) s.

(** [idx = y * width + x], an [unsigned]. *)
Definition pixel_index (width : Z) (y x : nat) : Z :=
  wrap32 (Z.of_nat y * width + Z.of_nat x).

(** The pixels of an image are stored to in place. *)
Definition with_bands (img : image_t) (b0 b1 b2 : list Z) : image_t :=
  {| width := width img; height := height img; color := color img;
     band0 := b0; band1 := b1; band2 := b2 |}.

(** [alloc_image] is a function of the library ([lib/image.h]), not of this
    file: it returns a pointer to an image, or null. *)
Class image_library : Type := {
  alloc_image : Z -> Z -> bool -> option image_t
}.

(** The image that [alloc_image (width, height, color, FORMAT_4_4_4)] is
    expected to return: zeroed bands of [width * height] pixels each, one
    band only for a grayscale image. *)
Definition blank_image (width height : Z) (color : bool) : image_t :=
  let band := replicate (Z.to_nat (width * height)) 0 in
  {| width := width; height := height; color := color;
     band0 := band;
     band1 := if color then band else [];
     band2 := if color then band else [] |}.

Section Binding.
Context `{L : image_library}.

(** The library gives the blank image for the size asked for. *)
Definition allocates (width height : Z) (color : bool) : Prop :=
  alloc_image width height color = Some (blank_image width height color).

Definition numpy_to_image (array : ndarray) : outcome image_t :=
  let ndim := length (shape array) in
  if (ndim <? 2)%nat || (3 <? ndim)%nat
  then Throws "Image must be 2D (grayscale) or 3D (RGB)"
  else
    let height := wrap32 (nth 0 (shape array) 0) in
    let width := wrap32 (nth 1 (shape array) 0) in
    let color := (ndim =? 3)%nat && (3 <=? nth 2 (shape array) 0) in
    match alloc_image width height color with
    | None => Throws "Failed to allocate FIASCO image"
    | Some img =>
        let data := buffer array in
        if color then
          do* bands :=
            pixel_loop width height
              (fun y x '(b0, b1, b2) =>
                 let idx := pixel_index width y x in
                 let src_idx := wrap32 (idx * 3) in
                 do* R := peek data src_idx in
                 do* G := peek data (wrap32 (src_idx + 1)) in
                 do* B := peek data (wrap32 (src_idx + 2)) in
                 let R := byte_val R in
                 let G := byte_val G in
                 let B := byte_val B in
                 Returns (poke idx (to_word (luma R G B)) b0,
                          poke idx (to_word (chroma_blue R G B)) b1,
                          poke idx (to_word (chroma_red R G B)) b2))
              (band0 img, band1 img, band2 img) in
          Returns (with_bands img bands.1.1 bands.1.2 bands.2)
        else
          do* band :=
            pixel_loop width height
              (fun y x b0 =>
                 let idx := pixel_index width y x in
                 do* v := peek data idx in
                 Returns (poke idx (to_word (byte_val v)) b0))
              (band0 img) in
          Returns (with_bands img band (band1 img) (band2 img))
    end.

End Binding.

(** The fresh array that the results are stored to; all of its cells are
    stored to. *)
Definition fresh_array (cells : Z) : list byte := replicate (Z.to_nat cells) x00.

Definition image_to_numpy (img : option image_t) : outcome ndarray :=
  match img with
  | None => Throws "Null image pointer"
  | Some img =>
      let width := wrap32 (width img) in
      let height := wrap32 (height img) in
      if color img then
        do* buf :=
          pixel_loop width height
            (fun y x buf =>
               let idx := pixel_index width y x in
               do* p0 := peek (band0 img) idx in
               do* p1 := peek (band1 img) idx in
               do* p2 := peek (band2 img) idx in
               let R := red_of p0 p1 p2 in
               let G := green_of p0 p1 p2 in
               let B := blue_of p0 p1 p2 in
               let at_pixel := (Z.of_nat y * width + Z.of_nat x) * 3 in
               Returns (poke (at_pixel + 2) (to_uint8 (clamp255 B))
                          (poke (at_pixel + 1) (to_uint8 (clamp255 G))
                             (poke at_pixel (to_uint8 (clamp255 R)) buf))))
            (fresh_array (height * width * 3)) in
        Returns {| shape := [height; width; 3]; buffer := buf |}
      else
        do* buf :=
          pixel_loop width height
            (fun y x buf =>
               let idx := pixel_index width y x in
               do* val := peek (band0 img) idx in
               Returns (poke (Z.of_nat y * width + Z.of_nat x)
                          (to_uint8 (clamp255 val)) buf))
            (fresh_array (height * width)) in
        Returns {| shape := [height; width]; buffer := buf |}
  end.

(** A library whose [alloc_image] returns the blank image. *)
Definition sample_library : image_library :=
  {| alloc_image := fun width height color =>
                      Some (blank_image width height color) |}.

(** A sample array of two by two pixels in three channels, and one of two
    by four pixels in one channel. *)
Definition sample_rgb : ndarray :=
  {| shape := [2; 2; 3];
     buffer := [xff; x00; x00;  x00; xff; x00;
                x00; x00; xff;  x80; x80; x80] |}.

Definition sample_gray : ndarray :=
  {| shape := [2; 4];
     buffer := [x00; x10; x7f; x80; xf0; xff; x01; xfe] |}.

(** An image of four pixels in three bands and one of four pixels in one
    band, as a decoder may leave them: pixels may lie outside of
    [[0, 255]]. *)
Definition sample_ycbcr : image_t :=
  {| width := 2; height := 2; color := true;
     band0 := [82; 300; 16; 235]; band1 := [90; 128; 128; 16];
     band2 := [240; -5; 128; 240] |}.

Definition sample_luma : image_t :=
  {| width := 2; height := 2; color := false;
     band0 := [-7; 100; 300; 255]; band1 := []; band2 := [] |}.

(** What the conversions are shown to produce: a list given cell by cell; a
    list whose first [k] cells are those of [full], the others still blank;
    the three bands of [n] pixels read from a buffer of bytes; and the bytes
    of the pixels of an image. *)
Definition tabulate {A} (f : nat -> A) (n : nat) : list A := f <$> seq 0 n.

Definition filled {A} (blank : A) (full : list A) (k : nat) : list A :=
  take k full ++ replicate (length full - k) blank.

Definition byte_at (data : list byte) (i : nat) : Z :=
  byte_val (default x00 (data !! i)).

Definition band_of (f : Z -> Z -> Z -> Z) (data : list byte) (n : nat)
  : list Z :=
  tabulate (fun k => f (byte_at data (3 * k)) (byte_at data (3 * k + 1))
                       (byte_at data (3 * k + 2))) n.

Definition pixel_at (band : list Z) (k : nat) : Z := default 0 (band !! k).

Definition channel_of (img : image_t) (i : nat) : byte :=
  let k := (i / 3)%nat in
  let p0 := pixel_at (band0 img) k in
  let p1 := pixel_at (band1 img) k in
  let p2 := pixel_at (band2 img) k in
  to_uint8 (clamp255 (match (i mod 3)%nat with
                      | 0%nat => red_of p0 p1 p2
                      | 1%nat => green_of p0 p1 p2
                      | _ => blue_of p0 p1 p2
                      end)).

(** * Properties *)

Section Properties.
Context `{E : externals}.

(** ** Loops *)

Lemma for_each_app {A S} (body : A -> S -> result S) xs ys s :
  for_each body (xs ++ ys) s
  = let* s' := for_each body xs s in for_each body ys s'.
Proof.
  revert s. induction xs as [|x xs IH]; intros s; simpl; [done|].
  destruct (body x s); simpl; auto.
Qed.

Lemma for_each_bind {A B S} (f : A -> list B) (body : B -> S -> result S)
    xs s :
  for_each (fun x => for_each body (f x)) xs s = for_each body (xs ≫= f) s.
Proof.
  revert s. induction xs as [|x xs IH]; intros s; csimpl; [done|].
  rewrite for_each_app. destruct (for_each body (f x) s); simpl; auto.
Qed.

Lemma for_each_ext {A S} (f g : A -> S -> result S) xs s :
  (forall x s', x ∈ xs -> f x s' = g x s') ->
  for_each f xs s = for_each g xs s.
Proof.
  revert s. induction xs as [|x xs IH]; intros s Hfg; simpl; [done|].
  rewrite Hfg by left. destruct (g x s); simpl; auto.
  apply IH. intros; apply Hfg. by right.
Qed.

(** ** Both passes walk the list of qualifying edges *)

Lemma classify_row_edges total ctx state label row edge st :
  classify_row total (ctx state) state label row edge st
  = for_each (classify_edge total ctx) (row_edges state label edge row) st.
Proof.
  revert edge st. induction row as [|domain rest IH]; intros edge st; simpl.
  - done.
  - destruct (isedge domain); simpl; [|done].
    unfold classify_edge at 1; simpl.
    destruct (total <=? fst st)%nat; [done|]. apply IH.
Qed.

Lemma second_pass_edges total wfa :
  second_pass total wfa
  = let* st := for_each
                 (classify_edge total
                    (context_of wfa (delta_approx wfa) (first_pass wfa)
                       (offsets wfa)))
                 (qualifying_edges wfa) (0%nat, fiasco_calloc total) in
    Done (snd st).
Proof.
  unfold second_pass, qualifying_edges, offsets.
  rewrite <- for_each_bind. f_equal.
  apply for_each_ext; intros state st _.
  unfold classify_state, state_edges. rewrite <- for_each_bind.
  apply for_each_ext; intros label st' _.
  unfold classify_label, label_edges.
  destruct (isrange _); [|done].
  apply (classify_row_edges total
           (context_of wfa (delta_approx wfa) (first_pass wfa)
              (offsets_of (first_pass wfa)))).
Qed.

Lemma update_row_edges wfa da syms state label row edge st :
  update_row wfa da syms state label row edge st
  = for_each (update_edge wfa da syms) (row_edges state label edge row) st.
Proof.
  revert edge st. induction row as [|domain rest IH]; intros edge st; simpl.
  - done.
  - destruct (isedge domain); simpl; [|done].
    unfold update_edge at 1; simpl.
    destruct (syms !! fst st); simpl; auto.
Qed.

Lemma third_pass_edges wfa syms :
  third_pass wfa syms
  = let* st := for_each (update_edge wfa (delta_approx wfa) syms)
                 (qualifying_edges wfa)
                 (0%nat, {| w_real := weight wfa; w_int := int_weight wfa |}) in
    Done (with_weights wfa (snd st)).
Proof.
  unfold third_pass, qualifying_edges.
  rewrite <- for_each_bind. f_equal.
  apply for_each_ext; intros state st _.
  unfold update_state, state_edges. rewrite <- for_each_bind.
  apply for_each_ext; intros label st' _.
  unfold update_label, label_edges.
  destruct (isrange _); [|done].
  apply update_row_edges.
Qed.

(** ** Running the second pass over a list of edges *)

Lemma store_at_middle (l1 l2 : list Z) (x v : Z) :
  store_at (Z.of_nat (length l1)) v (l1 ++ x :: l2) = l1 ++ v :: l2.
Proof.
  unfold store_at. rewrite bool_decide_eq_true_2.
  - rewrite Nat2Z.id.
    rewrite insert_app_r_alt by lia. by rewrite Nat.sub_diag.
  - rewrite length_app; simpl. lia.
Qed.

Lemma classify_run ctx es pre m k total :
  k = length pre -> total = (k + m)%nat -> (length es <= m)%nat ->
  for_each (classify_edge total ctx) es (k, pre ++ replicate m 0)
  = Done ((k + length es)%nat,
          (pre ++ ctx_ids ctx es) ++ replicate (m - length es) 0).
Proof.
  revert pre m k. induction es as [|e es IH]; intros pre m k -> -> Hm;
    simpl in *.
  - by rewrite Nat.add_0_r, Nat.sub_0_r, app_nil_r.
  - destruct m as [|m]; [lia|].
    unfold classify_edge at 1; simpl.
    destruct (Nat.leb_spec (length pre + S m) (length pre)); [lia|].
    rewrite store_at_middle; simpl.
    rewrite (cons_middle _ pre), app_assoc.
    rewrite (IH (pre ++ [ctx (e_state e) (e_domain e)]) m (S (length pre)));
      [|rewrite length_app; simpl; lia|lia|lia].
    f_equal. f_equal; [lia|]. by rewrite <- !app_assoc.
Qed.

Lemma classify_overflow ctx es pre m k total e :
  k = length pre -> total = (k + m)%nat -> es !! m = Some e ->
  for_each (classify_edge total ctx) es (k, pre ++ replicate m 0)
  = CountOverflow (e_state e) (e_label e) (e_edge e).
Proof.
  revert pre m k. induction es as [|e0 es IH]; intros pre m k -> -> Hm;
    [done|].
  simpl. unfold classify_edge at 1; simpl.
  destruct m as [|m]; simpl in Hm.
  - injection Hm as ->.
    destruct (Nat.leb_spec (length pre + 0) (length pre)); [done|lia].
  - destruct (Nat.leb_spec (length pre + S m) (length pre)); [lia|].
    cbn [replicate]. rewrite store_at_middle; simpl.
    rewrite (cons_middle _ pre), app_assoc.
    apply (IH (pre ++ [ctx (e_state e0) (e_domain e0)]) m (S (length pre)));
      [ rewrite length_app; simpl; lia | lia | exact Hm ].
Qed.

(** The array of contexts when the budget suffices, and the error when it
    does not. *)
Lemma second_pass_run wfa extra :
  second_pass (length (qualifying_edges wfa) + extra) wfa
  = Done (ctx_ids (context_of wfa (delta_approx wfa) (first_pass wfa)
                     (offsets wfa)) (qualifying_edges wfa)
          ++ replicate extra 0).
Proof.
  rewrite second_pass_edges. unfold fiasco_calloc.
  rewrite (classify_run _ (qualifying_edges wfa) []
             (length (qualifying_edges wfa) + extra) 0%nat
             (length (qualifying_edges wfa) + extra) eq_refl eq_refl);
    [|apply Nat.le_add_r].
  simpl. do 3 f_equal. lia.
Qed.

Lemma second_pass_overflow wfa total e :
  qualifying_edges wfa !! total = Some e ->
  second_pass total wfa = CountOverflow (e_state e) (e_label e) (e_edge e).
Proof.
  intros He. rewrite second_pass_edges. unfold fiasco_calloc.
  by rewrite (classify_overflow _ _ [] total 0%nat _ e eq_refl eq_refl He).
Qed.

(** ** The first pass *)

Lemma level_m1_range wfa state : -1 <= level_m1 wfa state <= 254.
Proof.
  unfold level_m1.
  pose proof (Byte.to_N_bounded (level_of_state wfa state)). lia.
Qed.

Lemma least_le_init init l : least init l <= init.
Proof.
  unfold least. revert init. induction l as [|x l IH]; intros init; simpl.
  - lia.
  - specialize (IH (Z.min init x)). lia.
Qed.

Lemma least_le_elem init l x : x ∈ l -> least init l <= x.
Proof.
  unfold least. revert init.
  induction l as [|y l IH]; intros init Hx; simpl.
  - by apply not_elem_of_nil in Hx.
  - apply elem_of_cons in Hx as [->|Hx]; [|by apply IH].
    pose proof (least_le_init (Z.min init y) l). unfold least in *. lia.
Qed.

Lemma least_ge b init l :
  b <= init -> (forall x, x ∈ l -> b <= x) -> b <= least init l.
Proof.
  unfold least. revert init.
  induction l as [|y l IH]; intros init Hi Hl; simpl; [done|].
  apply IH.
  - pose proof (Hl y (list_elem_of_here _ _)). lia.
  - intros x Hx. apply Hl. by right.
Qed.

Lemma greatest_ge_init init l : init <= greatest init l.
Proof.
  unfold greatest. revert init. induction l as [|x l IH]; intros init; simpl.
  - lia.
  - specialize (IH (Z.max init x)). lia.
Qed.

Lemma greatest_ge_elem init l x : x ∈ l -> x <= greatest init l.
Proof.
  unfold greatest. revert init.
  induction l as [|y l IH]; intros init Hx; simpl.
  - by apply not_elem_of_nil in Hx.
  - apply elem_of_cons in Hx as [->|Hx]; [|by apply IH].
    pose proof (greatest_ge_init (Z.max init y) l). unfold greatest in *. lia.
Qed.

Lemma greatest_le b init l :
  init <= b -> (forall x, x ∈ l -> x <= b) -> greatest init l <= b.
Proof.
  unfold greatest. revert init.
  induction l as [|y l IH]; intros init Hi Hl; simpl; [done|].
  apply IH.
  - pose proof (Hl y (list_elem_of_here _ _)). lia.
  - intros x Hx. apply Hl. by right.
Qed.

Lemma fold_left_bind {A B S} (f : S -> B -> S) (g : A -> list B) xs acc :
  fold_left (fun a x => fold_left f (g x) a) xs acc
  = fold_left f (xs ≫= g) acc.
Proof.
  revert acc. induction xs as [|x xs IH]; intros acc; csimpl; [done|].
  by rewrite fold_left_app, IH.
Qed.

Lemma fold_left_ext_in {A S} (f g : S -> A -> S) xs acc :
  (forall a x, x ∈ xs -> f a x = g a x) ->
  fold_left f xs acc = fold_left g xs acc.
Proof.
  revert acc. induction xs as [|x xs IH]; intros acc Hfg; simpl; [done|].
  rewrite Hfg by left. apply IH. intros; apply Hfg. by right.
Qed.

(** On the states of the loop, the test [delta_approx && delta_state] is
    the test of the delta flag alone. *)
Lemma delta_approx_state wfa state :
  state ∈ state_loop wfa ->
  delta_approx wfa && delta_state wfa state = delta_state wfa state.
Proof.
  intros Hs. destruct (delta_state wfa state) eqn:Hd.
  - rewrite andb_true_r. unfold delta_approx.
    apply existsb_exists. exists state. by rewrite <- list_elem_of_In.
  - apply andb_false_r.
Qed.

Lemma scan_levels_steps wfa :
  scan_levels wfa = fold_left (scan_step wfa) (range_labels wfa) scan_init.
Proof.
  unfold scan_levels, range_labels. rewrite <- fold_left_bind.
  apply fold_left_ext_in; intros acc state Hs.
  unfold scan_state, state_ranges. rewrite <- fold_left_bind.
  apply fold_left_ext_in; intros acc' label _.
  unfold scan_label, scan_step. cbn [fst snd].
  rewrite (delta_approx_state wfa state Hs).
  by destruct (isrange _).
Qed.

Lemma scan_steps_summary wfa rl acc :
  fold_left (scan_step wfa) rl acc
  = {| min_level := least (min_level acc) (levels_in wfa false rl);
       max_level := greatest (max_level acc) (levels_in wfa false rl);
       d_min_level := least (d_min_level acc) (levels_in wfa true rl);
       d_max_level := greatest (d_max_level acc) (levels_in wfa true rl);
       dc := dc acc || dc_in wfa false rl;
       d_dc := d_dc acc || dc_in wfa true rl |}.
Proof.
  revert acc. induction rl as [|[s l] rl IH]; intros acc.
  - destruct acc; simpl. by rewrite !orb_false_r.
  - cbn [fold_left]. rewrite IH. unfold scan_step, levels_in, dc_in.
    rewrite !filter_cons. cbn [fst snd].
    destruct (delta_state wfa s);
      repeat case_decide; try congruence; csimpl;
      destruct (first_is_dc wfa s l); simpl;
      f_equal; rewrite ?orb_true_r, ?orb_false_r; try done;
      by destruct (dc acc), (d_dc acc).
Qed.

Lemma scan_levels_summary wfa : scan_levels wfa = scan_of_ranges wfa.
Proof. by rewrite scan_levels_steps, scan_steps_summary. Qed.

Lemma class_min_scan wfa delta :
  class_min (first_pass wfa) delta
  = least (Z.pos MAXLEVEL) (levels_in wfa delta (range_labels wfa)).
Proof.
  unfold first_pass. rewrite scan_levels_summary. by destruct delta.
Qed.

Lemma class_max_scan wfa delta :
  class_max (first_pass wfa) delta
  = close_range (least (Z.pos MAXLEVEL) (levels_in wfa delta (range_labels wfa)))
      (greatest 0 (levels_in wfa delta (range_labels wfa))).
Proof.
  unfold first_pass. rewrite scan_levels_summary. by destruct delta.
Qed.

Lemma class_dc_scan wfa delta :
  class_dc (first_pass wfa) delta = dc_in wfa delta (range_labels wfa).
Proof.
  unfold first_pass. rewrite scan_levels_summary. by destruct delta.
Qed.

Lemma levels_in_elem wfa delta rl s l :
  (s, l) ∈ rl -> delta_state wfa s = delta ->
  level_m1 wfa s ∈ levels_in wfa delta rl.
Proof.
  intros Hin Hd. unfold levels_in.
  apply (list_elem_of_fmap_2 (fun sl => level_m1 wfa sl.1) _ (s, l)).
  by apply list_elem_of_filter.
Qed.

Lemma levels_in_range wfa delta rl x :
  x ∈ levels_in wfa delta rl -> -1 <= x <= 254.
Proof.
  unfold levels_in. intros ([s l] & -> & _)%list_elem_of_fmap.
  apply level_m1_range.
Qed.

(** The level of a range label lies in the level range of its class. *)
Lemma class_level_bounds wfa delta s l :
  (s, l) ∈ range_labels wfa -> delta_state wfa s = delta ->
  class_min (first_pass wfa) delta <= level_m1 wfa s
  <= class_max (first_pass wfa) delta.
Proof.
  intros Hin Hd. rewrite class_min_scan, class_max_scan.
  pose proof (levels_in_elem wfa delta _ s l Hin Hd) as Hx.
  pose proof (least_le_elem (Z.pos MAXLEVEL) _ _ Hx).
  pose proof (greatest_ge_elem 0 _ _ Hx).
  unfold close_range. destruct (Z.gtb_spec
    (least (Z.pos MAXLEVEL) (levels_in wfa delta (range_labels wfa)))
    (greatest 0 (levels_in wfa delta (range_labels wfa)))); lia.
Qed.

(** The width of a class is between 0 and 256. *)
Lemma class_span wfa delta :
  0 <= class_max (first_pass wfa) delta - class_min (first_pass wfa) delta + 1
    <= 256.
Proof.
  rewrite class_min_scan, class_max_scan.
  set (lv := levels_in wfa delta (range_labels wfa)).
  pose proof (least_ge (-1) (Z.pos MAXLEVEL) lv ltac:(lia)
                (fun x Hx => proj1 (levels_in_range wfa delta _ x Hx))).
  pose proof (greatest_le 254 0 lv ltac:(lia)
                (fun x Hx => proj2 (levels_in_range wfa delta _ x Hx))).
  unfold close_range.
  destruct (Z.gtb_spec (least (Z.pos MAXLEVEL) lv) (greatest 0 lv)); lia.
Qed.

(** A class without a range label has width 0. *)
Lemma class_span_empty wfa delta :
  class_ranges wfa delta = [] ->
  class_max (first_pass wfa) delta - class_min (first_pass wfa) delta + 1 = 0.
Proof.
  intros Hnil. rewrite class_min_scan, class_max_scan.
  unfold levels_in. unfold class_ranges in Hnil. rewrite Hnil. simpl.
  unfold close_range, least, greatest; simpl. lia.
Qed.

Lemma class_span_nonempty wfa delta s l :
  (s, l) ∈ range_labels wfa -> delta_state wfa s = delta ->
  1 <= class_max (first_pass wfa) delta - class_min (first_pass wfa) delta + 1.
Proof.
  intros Hin Hd. pose proof (class_level_bounds wfa delta s l Hin Hd). lia.
Qed.

(** ** The offsets, without reduction modulo 2^32 *)

Lemma wrap32_small z : 0 <= z < 2 ^ 32 -> wrap32 z = z.
Proof. apply Z.mod_small. Qed.

Lemma offsets_plain wfa :
  let sc := first_pass wfa in
  offset1 (offsets wfa) = flag (dc sc)
  /\ offset2 (offsets wfa) = offset1 (offsets wfa) + flag (d_dc sc)
  /\ offset3 (offsets wfa)
     = offset2 (offsets wfa) + (max_level sc - min_level sc + 1)
  /\ offset4 (offsets wfa)
     = offset3 (offsets wfa) + (d_max_level sc - d_min_level sc + 1).
Proof.
  intros sc. unfold offsets, offsets_of. fold sc. cbn [offset1 offset2 offset3 offset4].
  pose proof (class_span wfa false) as Hn.
  pose proof (class_span wfa true) as Hd.
  cbn [class_min class_max] in Hn, Hd. fold sc in Hn, Hd.
  assert (H1 : 0 <= flag (dc sc) <= 1) by (unfold flag; destruct (dc sc); lia).
  assert (H2 : 0 <= flag (d_dc sc) <= 1)
    by (unfold flag; destruct (d_dc sc); lia).
  fold (flag (dc sc)). fold (flag (d_dc sc)).
  rewrite (wrap32_small (flag (dc sc) + flag (d_dc sc))) by lia.
  rewrite (wrap32_small (_ + (max_level sc - min_level sc + 1))) by lia.
  rewrite (wrap32_small (_ + (d_max_level sc - d_min_level sc + 1))) by lia.
  done.
Qed.

Lemma offsets_order wfa :
  0 <= offset1 (offsets wfa) <= offset2 (offsets wfa)
  /\ offset2 (offsets wfa) <= offset3 (offsets wfa)
  /\ offset3 (offsets wfa) <= offset4 (offsets wfa)
  /\ offset4 (offsets wfa) <= 514.
Proof.
  destruct (offsets_plain wfa) as (H1 & H2 & H3 & H4).
  pose proof (class_span wfa false) as Hn.
  pose proof (class_span wfa true) as Hd.
  cbn [class_min class_max] in Hn, Hd.
  unfold flag in *.
  destruct (dc (first_pass wfa)), (d_dc (first_pass wfa)); lia.
Qed.

(** ** The qualifying edges *)

Lemma row_edges_elem state label edge row e :
  e ∈ row_edges state label edge row ->
  e_state e = state /\ e_label e = label /\ (edge <= e_edge e)%nat
  /\ row !! (e_edge e - edge)%nat = Some (e_domain e)
  /\ isedge (e_domain e) = true.
Proof.
  revert edge. induction row as [|domain rest IH]; intros edge; simpl.
  - by intros ?%not_elem_of_nil.
  - destruct (isedge domain) eqn:Hd; [|by intros ?%not_elem_of_nil].
    intros [->|He]%elem_of_cons; simpl.
    + by rewrite Nat.sub_diag.
    + destruct (IH _ He) as (? & ? & ? & Hl & ?).
      repeat split; try done; try lia.
      replace (e_edge e - edge)%nat with (S (e_edge e - S edge)) by lia.
      done.
Qed.

Lemma qualifying_edge_elem wfa e :
  e ∈ qualifying_edges wfa ->
  e_state e ∈ state_loop wfa
  /\ (e_state e, e_label e) ∈ range_labels wfa
  /\ into wfa (e_state e) (e_label e) !! e_edge e = Some (e_domain e)
  /\ isedge (e_domain e) = true.
Proof.
  unfold qualifying_edges, range_labels.
  intros (state & He & Hs)%list_elem_of_bind.
  unfold state_edges in He.
  apply list_elem_of_bind in He as (label & He & Hl).
  unfold label_edges in He.
  destruct (isrange (tree wfa state label)) eqn:Hr;
    [|by apply not_elem_of_nil in He].
  apply row_edges_elem in He as (-> & -> & _ & Hrow & Hedge).
  rewrite Nat.sub_0_r in Hrow.
  repeat split; try done.
  apply list_elem_of_bind. exists state. split; [|done].
  unfold state_ranges. apply list_elem_of_bind. exists label.
  split; [|done]. rewrite Hr. by left.
Qed.

Lemma row_edges_NoDup state label edge row :
  NoDup (e_pos <$> row_edges state label edge row).
Proof.
  revert edge. induction row as [|domain rest IH]; intros edge; simpl.
  - constructor.
  - destruct (isedge domain); [|constructor].
    csimpl. constructor; [|apply IH].
    intros (e & Heq & He)%list_elem_of_fmap.
    apply row_edges_elem in He as (_ & _ & Hle & _).
    unfold e_pos in Heq; simpl in Heq.
    assert (edge = e_edge e) by congruence. lia.
Qed.

Lemma fmap_over_bind {A B C} (f : B -> C) (g : A -> list B) (l : list A) :
  f <$> (l ≫= g) = l ≫= (fun x => f <$> g x).
Proof.
  induction l as [|x l IH]; csimpl; [done|]. by rewrite fmap_app, IH.
Qed.

(** No position is visited twice. *)
Lemma qualifying_edges_NoDup wfa : NoDup (e_pos <$> qualifying_edges wfa).
Proof.
  unfold qualifying_edges. rewrite fmap_over_bind.
  apply NoDup_bind.
  - intros s1 s2 pos _ _ H1 H2. simpl in *.
    apply list_elem_of_fmap in H1 as (e1 & -> & H1).
    apply list_elem_of_fmap in H2 as (e2 & Heq & H2).
    apply list_elem_of_bind in H1 as (l1 & H1 & _).
    apply list_elem_of_bind in H2 as (l2 & H2 & _).
    unfold label_edges in *.
    destruct (isrange (tree wfa s1 l1)); [|by apply not_elem_of_nil in H1].
    destruct (isrange (tree wfa s2 l2)); [|by apply not_elem_of_nil in H2].
    apply row_edges_elem in H1 as (<- & _).
    apply row_edges_elem in H2 as (<- & _).
    unfold e_pos in Heq. congruence.
  - intros state _. simpl. unfold state_edges. rewrite fmap_over_bind.
    apply NoDup_bind.
    + intros l1 l2 pos _ _ H1 H2. simpl in *.
      apply list_elem_of_fmap in H1 as (e1 & -> & H1).
      apply list_elem_of_fmap in H2 as (e2 & Heq & H2).
      unfold label_edges in *.
      destruct (isrange (tree wfa state l1)); [|by apply not_elem_of_nil in H1].
      destruct (isrange (tree wfa state l2)); [|by apply not_elem_of_nil in H2].
      apply row_edges_elem in H1 as (_ & <- & _).
      apply row_edges_elem in H2 as (_ & <- & _).
      unfold e_pos in Heq. congruence.
    + intros label _. simpl. unfold label_edges.
      destruct (isrange _); [apply row_edges_NoDup|constructor].
    + apply NoDup_seq.
  - apply NoDup_seq.
Qed.

(** ** The contexts written by the second pass *)

Lemma context_of_id wfa e :
  e ∈ qualifying_edges wfa ->
  context_of wfa (delta_approx wfa) (first_pass wfa) (offsets wfa)
    (e_state e) (e_domain e)
  = context_id wfa e.
Proof.
  intros (Hs & Hr & _)%qualifying_edge_elem.
  unfold context_of, context_id, class_of.
  rewrite (delta_approx_state wfa _ Hs).
  destruct (offsets_order wfa) as (Ho1 & Ho2 & Ho3 & Ho4).
  destruct (e_domain e =? 0); cbn [negb];
    destruct (delta_state wfa (e_state e)) eqn:Hd; try done.
  - pose proof (class_level_bounds wfa true _ _ Hr Hd) as Hb.
    cbn [class_min class_max] in Hb. unfold level_m1 in Hb.
    destruct (offsets_plain wfa) as (_ & _ & _ & H4).
    rewrite wrap32_small; lia.
  - pose proof (class_level_bounds wfa false _ _ Hr Hd) as Hb.
    cbn [class_min class_max] in Hb. unfold level_m1 in Hb.
    destruct (offsets_plain wfa) as (_ & _ & H3 & _).
    rewrite wrap32_small; lia.
Qed.

Lemma ctx_ids_context_id wfa :
  ctx_ids (context_of wfa (delta_approx wfa) (first_pass wfa) (offsets wfa))
    (qualifying_edges wfa)
  = context_id wfa <$> qualifying_edges wfa.
Proof.
  unfold ctx_ids. apply list_fmap_ext. intros i e He.
  apply context_of_id. by apply list_elem_of_lookup_2 in He.
Qed.

(** ** Running the third pass over a list of edges *)

Lemma rpf_of_class wfa e :
  e_state e ∈ state_loop wfa ->
  rpf_of wfa (delta_approx wfa) (e_state e) (e_domain e)
  = model_of (wfainfo wfa) (class_of wfa e).
Proof.
  intros Hs. unfold rpf_of, class_of.
  rewrite (delta_approx_state wfa _ Hs).
  by destruct (e_domain e =? 0), (delta_state wfa (e_state e)).
Qed.

Lemma update_run wfa syms es k ws :
  (forall e, e ∈ es -> e_state e ∈ state_loop wfa) ->
  (k + length es <= length syms)%nat ->
  for_each (update_edge wfa (delta_approx wfa) syms) es (k, ws)
  = Done ((k + length es)%nat, write_edges wfa es (drop k syms) ws).
Proof.
  revert k ws. induction es as [|e es IH]; intros k ws Hes Hlen; simpl in *.
  - by rewrite Nat.add_0_r.
  - unfold update_edge at 1; simpl.
    destruct (lookup_lt_is_Some_2 syms k ltac:(lia)) as [sym Hsym].
    rewrite Hsym; simpl. rewrite (drop_S _ _ _ Hsym).
    rewrite IH; [|intros; apply Hes; by right|lia].
    unfold write_edges; simpl. unfold write_edge at 2; simpl.
    rewrite rpf_of_class by (apply Hes; left).
    f_equal. f_equal. lia.
Qed.

Lemma write_edges_take wfa es syms ws :
  write_edges wfa es (take (length es) syms) ws = write_edges wfa es syms ws.
Proof.
  unfold write_edges. f_equal.
  revert syms. induction es as [|e es IH]; intros [|sym syms]; simpl; try done.
  f_equal. apply IH.
Qed.

Lemma write_edges_other wfa es syms ws pos :
  pos ∉ e_pos <$> es ->
  w_real (write_edges wfa es syms ws) !! pos = w_real ws !! pos
  /\ w_int (write_edges wfa es syms ws) !! pos = w_int ws !! pos.
Proof.
  unfold write_edges.
  revert syms ws. induction es as [|e es IH]; intros [|sym syms] ws Hpos;
    simpl; try done.
  csimpl in Hpos. apply not_elem_of_cons in Hpos as [Hne Hpos].
  destruct (IH syms (write_edge wfa ws (e, sym)) Hpos) as [-> ->].
  unfold write_edge, set_weight; simpl.
  by rewrite !lookup_insert_ne.
Qed.

Lemma write_edges_lookup wfa es syms ws k e sym :
  NoDup (e_pos <$> es) -> es !! k = Some e -> syms !! k = Some sym ->
  let w := btor sym (model_of (wfainfo wfa) (class_of wfa e)) in
  w_real (write_edges wfa es syms ws) !! e_pos e = Some w
  /\ w_int (write_edges wfa es syms ws) !! e_pos e = Some (fixed_point w).
Proof.
  revert syms ws k. induction es as [|e0 es IH]; intros syms ws k Hnd He Hs;
    [done|].
  destruct syms as [|s0 syms]; [done|].
  csimpl in Hnd. apply NoDup_cons in Hnd as [Hnotin Hnd].
  destruct k as [|k]; simpl in He, Hs.
  - injection He as ->. injection Hs as ->.
    change (write_edges wfa (e :: es) (sym :: syms) ws)
      with (write_edges wfa es syms (write_edge wfa ws (e, sym))).
    destruct (write_edges_other wfa es syms (write_edge wfa ws (e, sym))
                (e_pos e) Hnotin) as [-> ->].
    unfold write_edge, set_weight; simpl.
    by rewrite !lookup_insert_eq.
  - apply (IH syms (write_edge wfa ws (e0, s0)) k Hnd He Hs).
Qed.

(** The result of the third pass when the decoder has delivered a symbol
    for every qualifying edge. *)
Lemma third_pass_run wfa syms :
  (length (qualifying_edges wfa) <= length syms)%nat ->
  third_pass wfa syms
  = Done (with_weights wfa
            (write_edges wfa (qualifying_edges wfa) syms
               {| w_real := weight wfa; w_int := int_weight wfa |})).
Proof.
  intros Hlen. rewrite third_pass_edges.
  rewrite update_run; [done| |simpl; lia].
  intros e He. by apply qualifying_edge_elem in He as (? & _).
Qed.

(** ** The sizes of the alphabets *)

Lemma length_store_at i v arr : length (store_at i v arr) = length arr.
Proof.
  unfold store_at. case_bool_decide; [apply length_insert|done].
Qed.

Lemma lookup_store_at (arr : list Z) i v (j : nat) :
  0 <= i < Z.of_nat (length arr) ->
  store_at i v arr !! j
  = if bool_decide (Z.of_nat j = i) then Some v else arr !! j.
Proof.
  intros Hi. unfold store_at. rewrite bool_decide_eq_true_2 by done.
  case_bool_decide as Hj.
  - subst i. rewrite Nat2Z.id. apply list_lookup_insert_eq. lia.
  - apply list_lookup_insert_ne. lia.
Qed.

Lemma length_block_store i v b :
  length (cells (block_store i v b)) = length (cells b).
Proof. apply length_store_at. Qed.

Lemma lookup_block_store b i v (j : nat) :
  0 <= i < Z.of_nat (length (cells b)) ->
  cells (block_store i v b) !! j
  = if bool_decide (Z.of_nat j = i) then Some v else cells b !! j.
Proof. apply lookup_store_at. Qed.

Lemma in_bounds_store b i v :
  in_bounds b -> 0 <= i < Z.of_nat (length (cells b)) ->
  in_bounds (block_store i v b).
Proof.
  intros Hb Hi. unfold in_bounds. rewrite length_block_store.
  unfold block_store; cbn [stored]. apply Forall_app. split; [done|].
  by apply Forall_singleton.
Qed.

Lemma fill_upto_run fuel i bound v b :
  Z.of_nat fuel = bound - i -> 0 <= i ->
  bound <= Z.of_nat (length (cells b)) ->
  exists b',
    fill_upto fuel i bound v b = (bound, b')
    /\ length (cells b') = length (cells b)
    /\ (forall j : nat,
          cells b' !! j = if bool_decide (i <= Z.of_nat j < bound) then Some v
                          else cells b !! j)
    /\ (in_bounds b -> in_bounds b').
Proof.
  revert i b. induction fuel as [|fuel IH]; intros i b Hf Hi Hb; simpl.
  - assert (i = bound) as -> by lia. exists b. repeat split; try done.
    intros j. rewrite bool_decide_eq_false_2; [done|lia].
  - destruct (Z.ltb_spec i bound); [|lia].
    destruct (IH (i + 1) (block_store i v b)) as (b' & Hrun & Hlen & Hlk & Hin);
      [lia|lia|rewrite length_block_store; lia|].
    rewrite length_block_store in Hlen.
    exists b'. rewrite Hrun. repeat split; try done.
    + intros j. rewrite Hlk, lookup_block_store by lia.
      repeat case_bool_decide; try done; lia.
    + intros Hsafe. apply Hin. apply in_bounds_store; [done|lia].
Qed.

Lemma fill_loop_run i bound v b :
  0 <= i <= bound -> bound <= Z.of_nat (length (cells b)) ->
  exists b',
    fill_loop i bound v b = (bound, b')
    /\ length (cells b') = length (cells b)
    /\ (forall j : nat,
          cells b' !! j = if bool_decide (i <= Z.of_nat j < bound) then Some v
                          else cells b !! j)
    /\ (in_bounds b -> in_bounds b').
Proof.
  intros Hi Hb. unfold fill_loop. apply fill_upto_run; lia.
Qed.

(** With at least one context every store of the set-up goes to a cell of
    [c_symbols], and every cell holds the size of the alphabet of its
    model. *)
Lemma alphabet_run info offs :
  0 <= offset1 offs <= 1 ->
  offset1 offs <= offset2 offs <= offset1 offs + 1 ->
  offset2 offs <= offset3 offs <= offset4 offs ->
  1 <= offset4 offs ->
  in_bounds (alphabet info offs)
  /\ length (cells (alphabet info offs)) = Z.to_nat (offset4 offs)
  /\ forall id, 0 <= id < offset4 offs ->
       cells (alphabet info offs) !! Z.to_nat id
       = Some (symbol_count (model_of_id info offs id)).
Proof.
  intros H1 H2 H3 H4. unfold alphabet.
  set (c0 := {| cells := fiasco_calloc (Z.to_nat (offset4 offs));
                stored := [] |}).
  set (c1 := block_store 0 (symbol_count (dc_rpf info)) c0).
  assert (Hc0 : length (cells c0) = Z.to_nat (offset4 offs))
    by apply length_replicate.
  assert (Hc1 : length (cells c1) = Z.to_nat (offset4 offs))
    by (unfold c1; by rewrite length_block_store).
  assert (Hs1 : in_bounds c1).
  { apply in_bounds_store; [apply Forall_nil_2|lia]. }
  assert (Hl1 : forall j : nat,
             cells c1 !! j = if bool_decide (Z.of_nat j = 0)
                             then Some (symbol_count (dc_rpf info))
                             else cells c0 !! j).
  { intros j. apply lookup_block_store. lia. }
  set (c2 := if negb (offset1 offs =? offset2 offs)
             then block_store (offset1 offs) (symbol_count (d_dc_rpf info)) c1
             else c1).
  assert (Hc2 : length (cells c2) = Z.to_nat (offset4 offs)
                /\ in_bounds c2
                /\ forall j : nat,
                     cells c2 !! j
                     = if bool_decide (offset1 offs <= Z.of_nat j < offset2 offs)
                       then Some (symbol_count (d_dc_rpf info))
                       else cells c1 !! j).
  { unfold c2.
    destruct (Z.eqb_spec (offset1 offs) (offset2 offs)) as [Heq|Hne];
      cbn [negb].
    - repeat split; try done.
      intros j. rewrite bool_decide_eq_false_2; [done|lia].
    - rewrite length_block_store. split; [done|]. split.
      + apply in_bounds_store; [done|lia].
      + intros j. rewrite lookup_block_store by lia.
        repeat case_bool_decide; try done; lia. }
  destruct Hc2 as (Hc2 & Hs2 & Hl2).
  destruct (fill_loop_run (offset2 offs) (offset3 offs)
              (symbol_count (rpf info)) c2) as (c3 & -> & Hc3 & Hl3 & Hs3);
    [lia|lia|].
  destruct (fill_loop_run (offset3 offs) (offset4 offs)
              (symbol_count (d_rpf info)) c3) as (c4 & -> & Hc4 & Hl4 & Hs4);
    [lia|lia|].
  split; [auto|]. split; [congruence|].
  intros id Hid. rewrite Hl4, Hl3, Hl2, Hl1. unfold model_of_id.
  rewrite Z2Nat.id by lia.
  repeat case_bool_decide;
    repeat match goal with
           | |- context [?a <? ?b] => destruct (Z.ltb_spec a b)
           end; try done; lia.
Qed.

(** Without any context the first store misses the (empty) block. *)
Lemma alphabet_out_of_bounds info offs :
  offset4 offs <= 0 -> ~ in_bounds (alphabet info offs).
Proof.
  intros H4 Hsafe.
  assert (Hall : forall b, in_bounds b -> length (cells b) = 0%nat ->
                           stored b = []).
  { intros b Hb Hlen. unfold in_bounds in Hb. rewrite Hlen in Hb.
    destruct (stored b) as [|i tr]; [done|].
    apply Forall_cons in Hb as [Hi _]. lia. }
  assert (Hgrow : forall fuel i bound v b,
             stored b <> [] -> stored (fill_upto fuel i bound v b).2 <> []).
  { induction fuel as [|fuel IH]; intros i bound v b Hne; simpl; [done|].
    destruct (i <? bound); [|done]. apply IH. simpl.
    by destruct (stored b). }
  assert (Hlen : forall fuel i bound v b,
             length (cells (fill_upto fuel i bound v b).2) = length (cells b)).
  { induction fuel as [|fuel IH]; intros i bound v b; simpl; [done|].
    destruct (i <? bound); [|done]. rewrite IH.
    apply length_block_store. }
  revert Hsafe. unfold alphabet.
  set (c0 := {| cells := fiasco_calloc (Z.to_nat (offset4 offs));
                stored := [] |}).
  set (c1 := block_store 0 (symbol_count (dc_rpf info)) c0).
  set (c2 := if negb (offset1 offs =? offset2 offs)
             then block_store (offset1 offs) (symbol_count (d_dc_rpf info)) c1
             else c1).
  assert (Hc2 : stored c2 <> [] /\ length (cells c2) = 0%nat).
  { assert (Hc1 : stored c1 <> [] /\ length (cells c1) = 0%nat).
    { split; [done|]. unfold c1. rewrite length_block_store.
      unfold c0, fiasco_calloc; cbn [cells]. rewrite length_replicate. lia. }
    unfold c2. destruct (negb _); [|done].
    rewrite length_block_store. split; [|apply Hc1].
    unfold block_store; cbn [stored]. by destruct (stored c1). }
  destruct Hc2 as [Hne2 Hl2].
  unfold fill_loop.
  destruct (fill_upto _ (offset2 offs) _ _ c2) as [i c3] eqn:H3.
  destruct (fill_upto _ i _ _ c3) as [i' c4] eqn:H4'.
  intros Hsafe.
  assert (Hc3 : stored c3 <> [] /\ length (cells c3) = 0%nat).
  { replace c3 with (fill_upto (Z.to_nat (offset3 offs - offset2 offs))
                       (offset2 offs) (offset3 offs)
                       (symbol_count (rpf info)) c2).2 by (by rewrite H3).
    split; [by apply Hgrow|by rewrite Hlen]. }
  destruct Hc3 as [Hne3 Hl3].
  assert (Hc4 : stored c4 <> [] /\ length (cells c4) = 0%nat).
  { replace c4 with (fill_upto (Z.to_nat (offset4 offs - i)) i (offset4 offs)
                       (symbol_count (d_rpf info)) c3).2 by (by rewrite H4').
    split; [by apply Hgrow|by rewrite Hlen]. }
  destruct Hc4 as [Hne4 Hl4].
  by apply Hne4, Hall.
Qed.

(** ** The call as a whole *)


(** A label that is a range gives its class, and the block of alphabet
    sizes, at least one cell. *)
Lemma range_gives_context wfa s l :
  (s, l) ∈ range_labels wfa -> 1 <= offset4 (offsets wfa).
Proof.
  intros Hin.
  destruct (offsets_plain wfa) as (H1 & H2 & H3 & H4).
  destruct (offsets_order wfa) as (Ho1 & Ho2 & Ho3 & _).
  pose proof (class_span wfa false) as Hn.
  pose proof (class_span wfa true) as Hd.
  pose proof (class_span_nonempty wfa (delta_state wfa s) s l Hin eq_refl) as Hs.
  cbn [class_min class_max] in Hn, Hd.
  destruct (delta_state wfa s); cbn [class_min class_max] in Hs; lia.
Qed.

Lemma edge_gives_context wfa :
  qualifying_edges wfa <> [] -> 1 <= offset4 (offsets wfa).
Proof.
  destruct (qualifying_edges wfa) as [|e es] eqn:Hq; [done|]. intros _.
  assert (He : e ∈ qualifying_edges wfa) by (rewrite Hq; left).
  apply qualifying_edge_elem in He as (_ & Hr & _).
  by apply (range_gives_context wfa _ _ Hr).
Qed.

Lemma no_range_no_context wfa :
  range_labels wfa = [] -> offset4 (offsets wfa) = 0.
Proof.
  intros Hnil.
  destruct (offsets_plain wfa) as (H1 & H2 & H3 & H4).
  assert (Hc : forall delta, class_ranges wfa delta = [])
    by (intros delta; unfold class_ranges; by rewrite Hnil).
  pose proof (class_span_empty wfa false (Hc false)) as Hn.
  pose proof (class_span_empty wfa true (Hc true)) as Hd.
  cbn [class_min class_max] in Hn, Hd.
  assert (Hf : dc (first_pass wfa) = false).
  { change (dc (first_pass wfa)) with (class_dc (first_pass wfa) false).
    by rewrite class_dc_scan, Hnil. }
  assert (Hf' : d_dc (first_pass wfa) = false).
  { change (d_dc (first_pass wfa)) with (class_dc (first_pass wfa) true).
    by rewrite class_dc_scan, Hnil. }
  rewrite Hf, Hf' in *. unfold flag in *. lia.
Qed.

Lemma offsets_wf wfa :
  0 <= offset1 (offsets wfa) <= 1
  /\ offset1 (offsets wfa) <= offset2 (offsets wfa) <= offset1 (offsets wfa) + 1
  /\ offset2 (offsets wfa) <= offset3 (offsets wfa) <= offset4 (offsets wfa).
Proof.
  destruct (offsets_plain wfa) as (H1 & H2 & _).
  destruct (offsets_order wfa) as (Ho1 & Ho2 & Ho3 & _).
  unfold flag in *.
  destruct (dc (first_pass wfa)), (d_dc (first_pass wfa)); lia.
Qed.

Lemma second_pass_contexts wfa extra :
  second_pass (length (qualifying_edges wfa) + extra) wfa
  = Done (contexts wfa extra).
Proof. by rewrite second_pass_run, ctx_ids_context_id. Qed.

Lemma stores_in_bounds_spec b : stores_in_bounds b = true <-> in_bounds b.
Proof.
  unfold stores_in_bounds, in_bounds.
  rewrite forallb_forall, Forall_forall. split.
  - intros Hall i Hi%list_elem_of_In. apply Hall in Hi.
    apply andb_true_iff in Hi as [H0%Z.leb_le H1%Z.ltb_lt]. lia.
  - intros Hall i Hi%list_elem_of_In. apply Hall in Hi.
    apply andb_true_iff. split; [apply Z.leb_le|apply Z.ltb_lt]; lia.
Qed.

Lemma alphabet_in_bounds wfa :
  1 <= offset4 (offsets wfa) ->
  stores_in_bounds (alphabet (wfainfo wfa) (offsets wfa)) = true.
Proof.
  intros H4. apply stores_in_bounds_spec.
  destruct (offsets_wf wfa) as (H1 & H2 & H3).
  by destruct (alphabet_run (wfainfo wfa) (offsets wfa) H1 H2 H3 H4).
Qed.

Lemma alphabet_not_in_bounds wfa :
  offset4 (offsets wfa) <= 0 ->
  stores_in_bounds (alphabet (wfainfo wfa) (offsets wfa)) = false.
Proof.
  intros H4. apply not_true_is_false. intros Hb%stores_in_bounds_spec.
  by apply (alphabet_out_of_bounds (wfainfo wfa) (offsets wfa) H4).
Qed.

Lemma read_weights_run wfa input extra syms :
  1 <= offset4 (offsets wfa) ->
  syms = decode_array input (contexts wfa extra)
           (cells (alphabet (wfainfo wfa) (offsets wfa)))
           (offset4 (offsets wfa))
           (length (qualifying_edges wfa) + extra) scale ->
  (length (qualifying_edges wfa) <= length syms)%nat ->
  read_weights (length (qualifying_edges wfa) + extra) wfa input
  = Done (with_weights wfa
            (write_edges wfa (qualifying_edges wfa) syms (weights_of wfa))).
Proof.
  intros H4 -> Hlen. unfold read_weights.
  rewrite second_pass_contexts. cbn [bind].
  rewrite alphabet_in_bounds by done.
  by apply third_pass_run.
Qed.

Lemma read_weights_no_cell wfa input extra :
  offset4 (offsets wfa) <= 0 ->
  read_weights (length (qualifying_edges wfa) + extra) wfa input
  = OutOfBounds.
Proof.
  intros H4. unfold read_weights.
  rewrite second_pass_contexts. cbn [bind].
  by rewrite alphabet_not_in_bounds.
Qed.


(** ** Rounding *)

Lemma real_to_int_floor q : (0 <= q)%Q -> real_to_int q = Qfloor q.
Proof.
  destruct q as [n d]. unfold Qle, real_to_int, Qfloor; simpl.
  intros Hn. apply Z.quot_div_nonneg; lia.
Qed.

Lemma to_word_small v : - 2 ^ 15 <= v < 2 ^ 15 -> to_word v = v.
Proof. intros Hv. unfold to_word. rewrite Z.mod_small; lia. Qed.

(** A real within the range of [word_t] is converted to a value of that
    range. *)
Lemma real_to_int_fits q :
  (-32768 <= q)%Q -> (q < 32768)%Q -> - 2 ^ 15 <= real_to_int q < 2 ^ 15.
Proof.
  destruct q as [n d]. unfold real_to_int, Qle, Qlt.
  cbn [Qnum Qden]. rewrite !Z.mul_1_r. intros Hlo Hhi.
  change (2 ^ 15) with 32768.
  pose proof (Z.quot_rem' n (Z.pos d)) as Hqr.
  destruct (Z.le_gt_cases 0 n) as [Hn|Hn].
  - pose proof (Z.rem_bound_pos n (Z.pos d) Hn ltac:(lia)) as Hr.
    revert Hqr Hr. generalize (Z.quot n (Z.pos d)) (Z.rem n (Z.pos d)).
    intros k r Hqr Hr. nia.
  - pose proof (Z.rem_bound_pos_neg n (Z.pos d) ltac:(lia) ltac:(lia)) as Hr.
    revert Hqr Hr. generalize (Z.quot n (Z.pos d)) (Z.rem n (Z.pos d)).
    intros k r Hqr Hr. nia.
Qed.

(** On weights that are not negative, and within the range of the cell,
    the stored value is the nearest integer of [weight * 512]. *)
Lemma fixed_point_nonneg w :
  (0 <= w)%Q -> (w * 512 + (1 # 2) < 32768)%Q ->
  fixed_point w = round_nearest (w * 512)%Q.
Proof.
  intros Hw Hfit. unfold fixed_point, round_nearest.
  assert (H512 : (0 <= w * 512)%Q).
  { apply Qmult_le_0_compat; [done|]. by unfold Qle. }
  apply Qle_bool_iff in H512 as Hb. rewrite Hb.
  assert (H0 : (0 <= w * 512 + (1 # 2))%Q).
  { apply Qle_trans with (w * 512)%Q; [done|].
    rewrite <- (Qplus_0_r (w * 512)) at 1.
    apply Qplus_le_r. by unfold Qle. }
  rewrite to_word_small.
  - by apply real_to_int_floor.
  - apply real_to_int_fits; [|done].
    apply Qle_trans with 0%Q; [by unfold Qle|done].
Qed.

Lemma symbol_count_pow2 (r : rpf_t) :
  (mantissa_bits r < 30)%N ->
  symbol_count r = 2 ^ (Z.of_N (mantissa_bits r) + 1).
Proof.
  intros Hb. unfold symbol_count.
  rewrite Z.shiftl_1_l. apply wrap32_small. split.
  - apply Z.pow_nonneg. lia.
  - apply Z.pow_lt_mono_r; lia.
Qed.



(** * The claims *)

(** C1. The second pass writes, for the qualifying edges taken in the order
    of ascending state, ascending label among the labels that are ranges and
    ascending edge position up to the terminator, the context ids 0 (domain
    0, no delta), [offset1] (domain 0, delta), [offset2 + (level - 1 -
    min_level)] (domain not 0, no delta) and [offset3 + (level - 1 -
    d_min_level)] (domain not 0, delta). *)
Theorem classifier_context_ids wfa extra :
  exists level_array,
    second_pass (length (qualifying_edges wfa) + extra) wfa = Done level_array
    /\ take (length (qualifying_edges wfa)) level_array
       = context_id wfa <$> qualifying_edges wfa.
Proof.
  exists (contexts wfa extra). split; [apply second_pass_contexts|].
  unfold contexts. apply take_app_length'. by rewrite length_fmap.
Qed.

Lemma dc_in_elem wfa delta rl s l :
  (s, l) ∈ rl -> delta_state wfa s = delta -> first_is_dc wfa s l = true ->
  dc_in wfa delta rl = true.
Proof.
  intros Hin Hd Hf. unfold dc_in. apply existsb_exists.
  exists (s, l). split; [|done].
  apply list_elem_of_In, list_elem_of_filter. by split.
Qed.

Lemma dc_first_edge wfa e :
  dc_first wfa = true -> e ∈ qualifying_edges wfa -> e_domain e = 0 ->
  first_is_dc wfa (e_state e) (e_label e) = true.
Proof.
  intros Hdc He Hdom. unfold dc_first in Hdc.
  rewrite forallb_forall in Hdc.
  specialize (Hdc e (proj1 (list_elem_of_In _ _) He)).
  rewrite Hdom in Hdc. cbn in Hdc. apply Nat.eqb_eq in Hdc.
  apply qualifying_edge_elem in He as (_ & _ & Hrow & _).
  rewrite Hdc in Hrow. unfold first_is_dc.
  destruct (into wfa (e_state e) (e_label e)) as [|d row]; [done|].
  cbn in Hrow. injection Hrow as ->. by rewrite Hdom.
Qed.

Lemma first_edge_qualifies wfa s l :
  isedge 0 = true ->
  (s, l) ∈ range_labels wfa -> first_is_dc wfa s l = true ->
  {| e_state := s; e_label := l; e_edge := 0; e_domain := 0 |}
  ∈ qualifying_edges wfa.
Proof.
  intros Hedge Hin Hf. unfold range_labels in Hin.
  apply list_elem_of_bind in Hin as (s' & Hin & Hs).
  unfold state_ranges in Hin.
  apply list_elem_of_bind in Hin as (l' & Hin & Hl).
  destruct (isrange (tree wfa s' l')) eqn:Hr;
    [|by apply not_elem_of_nil in Hin].
  apply list_elem_of_singleton in Hin. injection Hin as <- <-.
  unfold qualifying_edges. apply list_elem_of_bind. exists s. split; [|done].
  unfold state_edges. apply list_elem_of_bind. exists l. split; [|done].
  unfold label_edges. rewrite Hr. unfold first_is_dc in Hf.
  destruct (into wfa s l) as [|domain rest]; [done|].
  apply Z.eqb_eq in Hf as ->. cbn [row_edges]. rewrite Hedge. by left.
Qed.

(** With the DC edge of a row listed first, the DC flag of a class tells
    whether the class has an edge with domain 0. *)
Lemma dc_flag_edge_exists wfa delta :
  dc_first wfa = true -> isedge 0 = true ->
  dc_in wfa delta (range_labels wfa) = dc_edge_exists wfa delta.
Proof.
  intros Hdc Hedge. apply eq_true_iff_eq. split.
  - unfold dc_in. intros Hin. apply existsb_exists in Hin as ([s l] & Hin & Hf).
    apply list_elem_of_In, list_elem_of_filter in Hin as [Hd Hin].
    cbn [fst snd] in Hd, Hf.
    unfold dc_edge_exists. apply existsb_exists.
    exists {| e_state := s; e_label := l; e_edge := 0; e_domain := 0 |}.
    split; [by apply list_elem_of_In, first_edge_qualifies|].
    apply bool_decide_eq_true. unfold class_of. cbn [e_domain e_state].
    rewrite Hd. by destruct delta.
  - unfold dc_edge_exists. intros Hex.
    apply existsb_exists in Hex as (e & He%list_elem_of_In & Hc).
    apply bool_decide_eq_true in Hc.
    assert (Hdom : e_domain e = 0 /\ delta_state wfa (e_state e) = delta).
    { unfold class_of in Hc.
      destruct (e_domain e =? 0) eqn:Hz, (delta_state wfa (e_state e)),
        delta; try discriminate; by apply Z.eqb_eq in Hz. }
    destruct Hdom as [Hdom Hd].
    apply (dc_in_elem wfa delta _ (e_state e) (e_label e)); [|done|].
    + by apply qualifying_edge_elem in He as (_ & Hr & _).
    + by apply dc_first_edge.
Qed.

(** C2, as amended.  The first pass computes, separately for delta and
    non-delta states, the minimum (from [MAXLEVEL]) and the maximum (from 0)
    of [level - 1] over all (state, label) pairs whose label is a range,
    whatever the domains of their edges, and raises the DC flag of a class
    exactly when some edge of that class has domain 0.  The rows list their
    DC edge first, and 0 is not the terminator of a row. *)
Theorem first_pass_scans_ranges wfa :
  dc_first wfa = true -> isedge 0 = true ->
  let sc := scan_levels wfa in
  let rl := range_labels wfa in
  min_level sc = least (Z.pos MAXLEVEL) (levels_in wfa false rl)
  /\ max_level sc = greatest 0 (levels_in wfa false rl)
  /\ d_min_level sc = least (Z.pos MAXLEVEL) (levels_in wfa true rl)
  /\ d_max_level sc = greatest 0 (levels_in wfa true rl)
  /\ dc sc = dc_edge_exists wfa false
  /\ d_dc sc = dc_edge_exists wfa true.
Proof.
  intros Hdc Hedge sc rl. unfold sc. rewrite scan_levels_summary.
  unfold scan_of_ranges. cbn [min_level max_level d_min_level d_max_level dc d_dc].
  fold rl. repeat split; unfold rl; by apply dc_flag_edge_exists.
Qed.

(** C3.  [offset1] is 1 if a non-delta DC edge exists, else 0; [offset2]
    adds 1 if a delta DC edge exists; [offset3] adds [max_level - min_level
    + 1] and [offset4] adds [d_max_level - d_min_level + 1]; a class whose
    scan ended with its minimum above its maximum gets the maximum
    [min - 1] and contributes width zero.  The rows list their DC edge
    first, and 0 is not the terminator of a row. *)
Theorem offsets_cumulative wfa :
  dc_first wfa = true -> isedge 0 = true ->
  let sc := first_pass wfa in
  let raw := scan_levels wfa in
  offset1 (offsets wfa) = flag (dc_edge_exists wfa false)
  /\ offset2 (offsets wfa)
     = offset1 (offsets wfa) + flag (dc_edge_exists wfa true)
  /\ offset3 (offsets wfa)
     = offset2 (offsets wfa) + (max_level sc - min_level sc + 1)
  /\ offset4 (offsets wfa)
     = offset3 (offsets wfa) + (d_max_level sc - d_min_level sc + 1)
  /\ min_level sc = min_level raw
  /\ d_min_level sc = d_min_level raw
  /\ (if min_level raw >? max_level raw
      then max_level sc = min_level raw - 1
           /\ offset3 (offsets wfa) = offset2 (offsets wfa)
      else max_level sc = max_level raw)
  /\ (if d_min_level raw >? d_max_level raw
      then d_max_level sc = d_min_level raw - 1
           /\ offset4 (offsets wfa) = offset3 (offsets wfa)
      else d_max_level sc = d_max_level raw).
Proof.
  intros Hdc Hedge sc raw.
  destruct (offsets_plain wfa) as (H1 & H2 & H3 & H4). fold sc in H1, H2, H3, H4.
  pose proof (class_dc_scan wfa false) as Hf.
  pose proof (class_dc_scan wfa true) as Hf'.
  cbn [class_dc] in Hf, Hf'. fold sc in Hf, Hf'.
  rewrite <- !(dc_flag_edge_exists wfa _ Hdc Hedge).
  rewrite <- Hf, <- Hf'.
  repeat split; try done.
  - unfold sc, first_pass, close_ranges, close_range; cbn [max_level min_level].
    fold raw. destruct (min_level raw >? max_level raw) eqn:Hgt; [|done].
    split; [done|]. rewrite H3.
    unfold sc, first_pass, close_ranges, close_range; cbn [max_level min_level].
    fold raw. rewrite Hgt. lia.
  - unfold sc, first_pass, close_ranges, close_range;
      cbn [d_max_level d_min_level].
    fold raw. destruct (d_min_level raw >? d_max_level raw) eqn:Hgt; [|done].
    split; [done|]. rewrite H4.
    unfold sc, first_pass, close_ranges, close_range;
      cbn [d_max_level d_min_level].
    fold raw. rewrite Hgt. lia.
Qed.


(** C5. The third pass visits the edges in the order of the second pass:
    for every [k], the [k]-th decoded symbol is stored at the [k]-th
    qualifying edge, converted with the model (DC, delta DC, AC or delta AC)
    of the class whose context id the second pass wrote at index [k]. *)
Theorem writeback_follows_classifier wfa syms extra :
  (length (qualifying_edges wfa) <= length syms)%nat ->
  exists level_array wfa',
    second_pass (length (qualifying_edges wfa) + extra) wfa = Done level_array
    /\ third_pass wfa syms = Done wfa'
    /\ forall k e sym,
         qualifying_edges wfa !! k = Some e -> syms !! k = Some sym ->
         level_array !! k = Some (context_id wfa e)
         /\ weight wfa' !! e_pos e
            = Some (btor sym (model_of (wfainfo wfa) (class_of wfa e))).
Proof.
  intros Hlen. eexists _, _.
  split; [apply second_pass_contexts|].
  split; [by apply third_pass_run|].
  intros k e sym He Hsym. split.
  - unfold contexts. rewrite lookup_app_l.
    + by rewrite list_lookup_fmap, He.
    + rewrite length_fmap. by apply lookup_lt_Some in He.
  - apply (write_edges_lookup wfa _ syms (weights_of wfa) k e sym
             (qualifying_edges_NoDup wfa) He Hsym).
Qed.

(** C7, as amended.  For each context id in [[0, offset4)] the size of the
    initial alphabet is [2 ^ (mantissa_bits + 1)] of the model of the id:
    the DC model for id 0 only if [offset1] is not 0, the delta DC model for
    id [offset1] only if [offset1] differs from [offset2], the AC model for
    the ids in [[offset2, offset3)] and the delta AC model for the ids in
    [[offset3, offset4)]. *)
Theorem alphabet_sizes wfa id :
  0 <= id < offset4 (offsets wfa) ->
  (mantissa_bits (model_of_id (wfainfo wfa) (offsets wfa) id) < 30)%N ->
  cells (alphabet (wfainfo wfa) (offsets wfa)) !! Z.to_nat id
  = Some (2 ^ (Z.of_N (mantissa_bits
                         (model_of_id (wfainfo wfa) (offsets wfa) id))
               + 1)).
Proof.
  intros Hid Hbits.
  destruct (offsets_wf wfa) as (H1 & H2 & H3).
  destruct (alphabet_run (wfainfo wfa) (offsets wfa) H1 H2 H3)
    as (_ & _ & Hlk); [lia|].
  by rewrite (Hlk id Hid), symbol_count_pow2.
Qed.


(** C9. Every context id that the second pass writes lies in
    [[0, offset4)]: for an edge with domain 0 it is 0 or [offset1], both
    below [offset2] when the DC flag of the class is set; for any other
    edge [level - 1] lies between the minimum and the maximum level of the
    class, so that the id lies in [[offset2, offset3)] or in
    [[offset3, offset4)]; hence the id is the index of a cell of the block
    of alphabet sizes handed to the decoder. *)
Theorem context_ids_in_range wfa extra k e :
  qualifying_edges wfa !! k = Some e ->
  exists level_array id,
    second_pass (length (qualifying_edges wfa) + extra) wfa = Done level_array
    /\ level_array !! k = Some id
    /\ 0 <= id < offset4 (offsets wfa)
    /\ is_Some (cells (alphabet (wfainfo wfa) (offsets wfa)) !! Z.to_nat id)
    /\ match class_of wfa e with
       | DC => id = 0
               /\ (dc (first_pass wfa) = true -> id < offset2 (offsets wfa))
       | D_DC => id = offset1 (offsets wfa)
                 /\ (d_dc (first_pass wfa) = true
                     -> id < offset2 (offsets wfa))
       | AC => min_level (first_pass wfa) <= level_m1 wfa (e_state e)
                 <= max_level (first_pass wfa)
               /\ offset2 (offsets wfa) <= id < offset3 (offsets wfa)
       | D_AC => d_min_level (first_pass wfa) <= level_m1 wfa (e_state e)
                   <= d_max_level (first_pass wfa)
                 /\ offset3 (offsets wfa) <= id < offset4 (offsets wfa)
       end.
Proof.
  intros He. exists (contexts wfa extra), (context_id wfa e).
  split; [apply second_pass_contexts|]. split.
  { unfold contexts. rewrite lookup_app_l.
    - by rewrite list_lookup_fmap, He.
    - rewrite length_fmap. by apply lookup_lt_Some in He. }
  apply list_elem_of_lookup_2, qualifying_edge_elem in He as (_ & Hr & _).
  assert (Hcell : forall id, 0 <= id < offset4 (offsets wfa) ->
            is_Some (cells (alphabet (wfainfo wfa) (offsets wfa))
                     !! Z.to_nat id)).
  { intros id Hid. destruct (offsets_wf wfa) as (H1 & H2 & H3).
    destruct (alphabet_run (wfainfo wfa) (offsets wfa) H1 H2 H3)
      as (_ & _ & Hlk); [lia|].
    rewrite (Hlk id Hid). by eexists. }
  assert (Hgoal : forall P : Prop,
            (0 <= context_id wfa e < offset4 (offsets wfa)) /\ P ->
            0 <= context_id wfa e < offset4 (offsets wfa)
            /\ is_Some (cells (alphabet (wfainfo wfa) (offsets wfa))
                        !! Z.to_nat (context_id wfa e))
            /\ P).
  { intros P [Hid HP]. split; [done|]. split; [by apply Hcell|done]. }
  apply Hgoal. clear Hgoal Hcell.
  destruct (offsets_plain wfa) as (H1 & H2 & H3 & H4).
  destruct (offsets_order wfa) as (Ho1 & Ho2 & Ho3 & _).
  pose proof (class_span wfa false) as Hn.
  pose proof (class_span wfa true) as Hd.
  pose proof (class_level_bounds wfa _ _ _ Hr eq_refl) as Hb.
  cbn [class_min class_max] in Hn, Hd.
  unfold context_id, class_of, flag in *.
  destruct (e_domain e =? 0), (delta_state wfa (e_state e));
    cbn [class_min class_max] in Hb; unfold level_m1 in *;
    destruct (dc (first_pass wfa)), (d_dc (first_pass wfa));
    repeat split; try done; try lia.
Qed.


End Properties.

(** * The claims at concrete automata *)

Lemma sample_decoder_delivers : @decoder_delivers fiasco.
Proof.
  intros input context c_symbols n_context n_data scaling.
  simpl. unfold sample_decode.
  rewrite length_take, length_app, length_replicate. lia.
Qed.

(** C2, a counterexample.  With a DC edge only, listed first, the level
    range is that of the level of the state, from 2 to 2, although no edge
    has a domain other than 0: the scan is not the scan over the edges with
    a domain other than 0. *)
Lemma first_pass_not_over_edges :
  dc_first wfa_dc_only = true
  /\ ac_edge_exists wfa_dc_only false = false
  /\ min_level (scan_levels wfa_dc_only) = 2
  /\ max_level (scan_levels wfa_dc_only) = 2
  /\ min_level (scan_of_edges wfa_dc_only) = Z.pos (@MAXLEVEL fiasco)
  /\ max_level (scan_of_edges wfa_dc_only) = 0
  /\ scan_levels wfa_dc_only <> scan_of_edges wfa_dc_only.
Proof. repeat split; vm_compute; discriminate. Qed.

(** Why rows have to list their DC edge first: in a row that lists it
    behind another edge there is a DC edge, and the flag is not raised. *)
Lemma dc_edge_behind_is_missed :
  dc_first wfa_ac_dc = false
  /\ dc_edge_exists wfa_ac_dc false = true
  /\ dc (scan_levels wfa_ac_dc) = false
  /\ offset1 (offsets wfa_ac_dc) = 0.
Proof. repeat split. Qed.

(** C6, at a weight of -1.  Symbol 15 in the AC format of three mantissa
    bits has the value -1; the third pass stores the fixed-point weight
    -511, whereas -1 * 512 rounds to -512. *)
Theorem fixed_point_of_negative_weight :
  fixed_point (-1 # 1) = -511
  /\ round_nearest ((-1 # 1) * 512)%Q = -512
  /\ exists wfa' w,
       third_pass wfa_ac_only [15] = Done wfa'
       /\ weight wfa' !! (2%nat, 0%nat, 0%nat) = Some w
       /\ (w == -1 # 1)%Q
       /\ int_weight wfa' !! (2%nat, 0%nat, 0%nat) = Some (-511)
       /\ round_nearest (w * 512) = -512.
Proof.
  split; [reflexivity|]. split; [reflexivity|].
  eexists _, _. split; [vm_compute; reflexivity|].
  split; [vm_compute; reflexivity|].
  split; [reflexivity|]. split; vm_compute; reflexivity.
Qed.

(** C7, a counterexample.  With an AC edge only, id 0 is the context of
    the AC edges and its alphabet is that of the AC model, not of the DC
    model. *)
Lemma alphabet_of_id_0_not_dc :
  0 <= 0 < offset4 (offsets wfa_ac_only)
  /\ cells (alphabet sample_info (offsets wfa_ac_only)) !! 0%nat
     <> Some (2 ^ (Z.of_N (@mantissa_bits fiasco (dc_rpf sample_info)) + 1)).
Proof. vm_compute. repeat split; discriminate. Qed.


(** ** Instances of the theorems that have premises *)

Lemma first_pass_scans_ranges_witness :
  (dc_first wfa_mixed = true /\ @isedge fiasco 0 = true)
  /\ (let sc := scan_levels wfa_mixed in
      let rl := range_labels wfa_mixed in
      min_level sc = least (Z.pos (@MAXLEVEL fiasco)) (levels_in wfa_mixed false rl)
      /\ max_level sc = greatest 0 (levels_in wfa_mixed false rl)
      /\ d_min_level sc = least (Z.pos (@MAXLEVEL fiasco)) (levels_in wfa_mixed true rl)
      /\ d_max_level sc = greatest 0 (levels_in wfa_mixed true rl)
      /\ dc sc = dc_edge_exists wfa_mixed false
      /\ d_dc sc = dc_edge_exists wfa_mixed true).
Proof.
  split; [split; reflexivity|].
  apply (first_pass_scans_ranges wfa_mixed); reflexivity.
Defined.

Lemma offsets_cumulative_witness :
  (dc_first wfa_mixed = true /\ @isedge fiasco 0 = true)
  /\ (let sc := first_pass wfa_mixed in
      let raw := scan_levels wfa_mixed in
      offset1 (offsets wfa_mixed) = flag (dc_edge_exists wfa_mixed false)
      /\ offset2 (offsets wfa_mixed)
         = offset1 (offsets wfa_mixed) + flag (dc_edge_exists wfa_mixed true)
      /\ offset3 (offsets wfa_mixed)
         = offset2 (offsets wfa_mixed) + (max_level sc - min_level sc + 1)
      /\ offset4 (offsets wfa_mixed)
         = offset3 (offsets wfa_mixed) + (d_max_level sc - d_min_level sc + 1)
      /\ min_level sc = min_level raw
      /\ d_min_level sc = d_min_level raw
      /\ (if min_level raw >? max_level raw
          then max_level sc = min_level raw - 1
               /\ offset3 (offsets wfa_mixed) = offset2 (offsets wfa_mixed)
          else max_level sc = max_level raw)
      /\ (if d_min_level raw >? d_max_level raw
          then d_max_level sc = d_min_level raw - 1
               /\ offset4 (offsets wfa_mixed) = offset3 (offsets wfa_mixed)
          else d_max_level sc = d_max_level raw)).
Proof.
  split; [split; reflexivity|].
  apply (offsets_cumulative wfa_mixed); reflexivity.
Defined.


Lemma writeback_follows_classifier_witness :
  (length (qualifying_edges wfa_mixed) <= length [1; 2; 3; 4; 5; 6])%nat
  /\ exists level_array wfa',
      second_pass (length (qualifying_edges wfa_mixed) + 1) wfa_mixed
      = Done level_array
      /\ third_pass wfa_mixed [1; 2; 3; 4; 5; 6] = Done wfa'
      /\ forall k e sym,
           qualifying_edges wfa_mixed !! k = Some e ->
           [1; 2; 3; 4; 5; 6] !! k = Some sym ->
           level_array !! k = Some (context_id wfa_mixed e)
           /\ weight wfa' !! e_pos e
              = Some (btor sym (model_of (wfainfo wfa_mixed)
                                  (class_of wfa_mixed e))).
Proof.
  split; [simpl; lia|].
  apply (writeback_follows_classifier wfa_mixed [1; 2; 3; 4; 5; 6] 1).
  simpl; lia.
Defined.

Lemma alphabet_sizes_witness :
  (0 <= 2 < offset4 (offsets wfa_mixed)
   /\ (mantissa_bits (model_of_id (wfainfo wfa_mixed) (offsets wfa_mixed) 2)
       < 30)%N)
  /\ cells (alphabet (wfainfo wfa_mixed) (offsets wfa_mixed)) !! Z.to_nat 2
     = Some (2 ^ (Z.of_N (mantissa_bits
                            (model_of_id (wfainfo wfa_mixed)
                               (offsets wfa_mixed) 2))
                  + 1)).
Proof.
  assert (H : 0 <= 2 < offset4 (offsets wfa_mixed)
              /\ (mantissa_bits
                    (model_of_id (wfainfo wfa_mixed) (offsets wfa_mixed) 2)
                  < 30)%N).
  { vm_compute. repeat split; discriminate. }
  split; [exact H|].
  apply (alphabet_sizes wfa_mixed 2); apply H.
Defined.


Lemma context_ids_in_range_witness :
  qualifying_edges wfa_mixed !! 1%nat
  = Some {| e_state := 2; e_label := 0; e_edge := 1; e_domain := 3 |}
  /\ exists level_array id,
      second_pass (length (qualifying_edges wfa_mixed) + 0) wfa_mixed
      = Done level_array
      /\ level_array !! 1%nat = Some id
      /\ 0 <= id < offset4 (offsets wfa_mixed)
      /\ is_Some (cells (alphabet (wfainfo wfa_mixed) (offsets wfa_mixed))
                  !! Z.to_nat id)
      /\ match class_of wfa_mixed
                 {| e_state := 2; e_label := 0; e_edge := 1; e_domain := 3 |}
         with
         | DC => id = 0
                 /\ (dc (first_pass wfa_mixed) = true
                     -> id < offset2 (offsets wfa_mixed))
         | D_DC => id = offset1 (offsets wfa_mixed)
                   /\ (d_dc (first_pass wfa_mixed) = true
                       -> id < offset2 (offsets wfa_mixed))
         | AC => min_level (first_pass wfa_mixed) <= level_m1 wfa_mixed 2
                   <= max_level (first_pass wfa_mixed)
                 /\ offset2 (offsets wfa_mixed) <= id
                    < offset3 (offsets wfa_mixed)
         | D_AC => d_min_level (first_pass wfa_mixed) <= level_m1 wfa_mixed 2
                     <= d_max_level (first_pass wfa_mixed)
                   /\ offset3 (offsets wfa_mixed) <= id
                      < offset4 (offsets wfa_mixed)
         end.
Proof.
  split; [reflexivity|].
  apply (context_ids_in_range wfa_mixed 0 1
           {| e_state := 2; e_label := 0; e_edge := 1; e_domain := 3 |}).
  reflexivity.
Defined.


(** * Further properties of [read_weights] *)

Section Further.
Context `{E : externals}.

(** X1.  The alphabet that the decoder is given for the context of an edge is
    the alphabet of the model that the third pass converts the symbol of
    that edge with, provided every row lists its DC edge first. *)
Theorem alphabet_matches_writeback wfa e :
  dc_first wfa = true -> e ∈ qualifying_edges wfa ->
  model_of_id (wfainfo wfa) (offsets wfa) (context_id wfa e)
  = model_of (wfainfo wfa) (class_of wfa e)
  /\ cells (alphabet (wfainfo wfa) (offsets wfa)) !! Z.to_nat (context_id wfa e)
     = Some (symbol_count (model_of (wfainfo wfa) (class_of wfa e))).
Proof.
  intros Hdc He.
  assert (Hmodel : model_of_id (wfainfo wfa) (offsets wfa) (context_id wfa e)
                   = model_of (wfainfo wfa) (class_of wfa e)
                   /\ 0 <= context_id wfa e < offset4 (offsets wfa)).
  { pose proof (dc_first_edge wfa e Hdc He) as Hfirst.
    apply qualifying_edge_elem in He as (_ & Hr & _).
    destruct (offsets_plain wfa) as (H1 & H2 & H3 & H4).
    pose proof (class_span wfa false) as Hn.
    pose proof (class_span wfa true) as Hd.
    pose proof (class_level_bounds wfa _ _ _ Hr eq_refl) as Hb.
    pose proof (class_dc_scan wfa (delta_state wfa (e_state e))) as Hflag.
    cbn [class_min class_max] in Hn, Hd.
    unfold context_id, class_of, model_of_id, model_of, flag in *.
    destruct (Z.eqb_spec (e_domain e) 0) as [Hdom|Hdom].
    - rewrite (dc_in_elem wfa _ _ _ _ Hr eq_refl (Hfirst Hdom)) in Hflag.
      destruct (delta_state wfa (e_state e));
        cbn [class_min class_max class_dc] in Hb, Hflag;
        unfold level_m1 in *;
        destruct (dc (first_pass wfa)), (d_dc (first_pass wfa));
        try discriminate Hflag;
        repeat match goal with
               | |- context [?a <? ?b] => destruct (Z.ltb_spec a b)
               end; first [split; [done|lia] | exfalso; lia].
    - destruct (delta_state wfa (e_state e));
        cbn [class_min class_max class_dc] in Hb; unfold level_m1 in *;
        destruct (dc (first_pass wfa)), (d_dc (first_pass wfa));
        repeat match goal with
               | |- context [?a <? ?b] => destruct (Z.ltb_spec a b)
               end; first [split; [done|lia] | exfalso; lia]. }
  destruct Hmodel as [Hm Hid]. split; [done|].
  destruct (offsets_wf wfa) as (H1 & H2 & H3).
  destruct (alphabet_run (wfainfo wfa) (offsets wfa) H1 H2 H3)
    as (_ & _ & Hlk); [lia|].
  by rewrite (Hlk _ Hid), Hm.
Qed.

(** X2.  The offsets are ordered, the two DC contexts take at most one id each
    and each level range at most 256: the block of alphabet sizes has
    [offset4] cells, never more than 514. *)
Theorem offsets_ordered_and_bounded wfa :
  0 <= offset1 (offsets wfa) <= 1
  /\ offset1 (offsets wfa) <= offset2 (offsets wfa) <= offset1 (offsets wfa) + 1
  /\ offset2 (offsets wfa) <= offset3 (offsets wfa) <= offset2 (offsets wfa) + 256
  /\ offset3 (offsets wfa) <= offset4 (offsets wfa) <= offset3 (offsets wfa) + 256
  /\ offset4 (offsets wfa) <= 514
  /\ length (cells (alphabet (wfainfo wfa) (offsets wfa)))
     = Z.to_nat (offset4 (offsets wfa)).
Proof.
  destruct (offsets_plain wfa) as (H1 & H2 & H3 & H4).
  pose proof (class_span wfa false) as Hn.
  pose proof (class_span wfa true) as Hd.
  cbn [class_min class_max] in Hn, Hd.
  assert (Hlen : length (cells (alphabet (wfainfo wfa) (offsets wfa)))
                 = Z.to_nat (offset4 (offsets wfa))).
  { assert (Hfill : forall fuel i bound v b,
              length (cells (fill_upto fuel i bound v b).2) = length (cells b)).
    { induction fuel as [|fuel IH]; intros i bound v b; simpl; [done|].
      destruct (i <? bound); [|done]. rewrite IH.
      apply length_block_store. }
    unfold alphabet, fill_loop.
    destruct (fill_upto _ (offset2 (offsets wfa)) _ _ _) as [i c3] eqn:H3'.
    destruct (fill_upto _ i _ _ c3) as [i' c4] eqn:H4'.
    change c4 with (i', c4).2. rewrite <- H4', Hfill.
    change c3 with (i, c3).2. rewrite <- H3', Hfill.
    destruct (negb _); rewrite ?length_block_store;
      apply length_replicate. }
  unfold flag in *.
  destruct (dc (first_pass wfa)), (d_dc (first_pass wfa));
    repeat split; try done; lia.
Qed.

Lemma no_delta_states wfa state :
  delta_approx wfa = false -> state ∈ state_loop wfa ->
  delta_state wfa state = false.
Proof.
  intros Hda Hs. rewrite <- (delta_approx_state wfa state Hs).
  by rewrite Hda.
Qed.

Lemma range_label_state wfa s l :
  (s, l) ∈ range_labels wfa -> s ∈ state_loop wfa.
Proof.
  unfold range_labels. intros (s' & Hin & Hs)%list_elem_of_bind.
  unfold state_ranges in Hin.
  apply list_elem_of_bind in Hin as (l' & Hin & _).
  destruct (isrange _); [|by apply not_elem_of_nil in Hin].
  apply list_elem_of_singleton in Hin. by injection Hin as -> _.
Qed.

(** X3.  If no state beyond the basis uses the delta approximation, the delta
    class is empty: [offset2 = offset1] and [offset4 = offset3], and every
    edge has a context below [offset3] and is converted with [dc_rpf] or
    [rpf]. *)
Theorem no_delta_no_delta_class wfa e :
  delta_approx wfa = false -> e ∈ qualifying_edges wfa ->
  offset2 (offsets wfa) = offset1 (offsets wfa)
  /\ offset4 (offsets wfa) = offset3 (offsets wfa)
  /\ 0 <= context_id wfa e < offset3 (offsets wfa)
  /\ rpf_of wfa (delta_approx wfa) (e_state e) (e_domain e)
     = (if e_domain e =? 0 then dc_rpf (wfainfo wfa) else rpf (wfainfo wfa)).
Proof.
  intros Hda He.
  assert (Hnil : class_ranges wfa true = []).
  { unfold class_ranges.
    destruct (filter _ (range_labels wfa)) as [|[s l] rest] eqn:Hf; [done|].
    assert (Hin : (s, l) ∈ filter (fun sl => delta_state wfa sl.1 = true)
                               (range_labels wfa)) by (rewrite Hf; left).
    apply list_elem_of_filter in Hin as [Hd Hin]. cbn in Hd.
    apply range_label_state in Hin.
    by rewrite (no_delta_states wfa s Hda Hin) in Hd. }
  pose proof (class_span_empty wfa true Hnil) as Hw.
  cbn [class_min class_max] in Hw.
  assert (Hflag : d_dc (first_pass wfa) = false).
  { change (d_dc (first_pass wfa)) with (class_dc (first_pass wfa) true).
    rewrite class_dc_scan. unfold dc_in.
    unfold class_ranges in Hnil. by rewrite Hnil. }
  destruct (offsets_plain wfa) as (H1 & H2 & H3 & H4).
  rewrite Hflag in H2. unfold flag in H2.
  pose proof (class_span wfa false) as Hn. cbn [class_min class_max] in Hn.
  apply qualifying_edge_elem in He as (Hs & Hr & _).
  pose proof (no_delta_states wfa _ Hda Hs) as Hd.
  pose proof (class_level_bounds wfa false _ _ Hr Hd) as Hb.
  cbn [class_min class_max] in Hb. unfold level_m1 in Hb.
  assert (H0 : 0 <= offset1 (offsets wfa) <= 1)
    by (unfold flag in H1; destruct (dc (first_pass wfa)); lia).
  split; [lia|]. split; [lia|]. split.
  - unfold context_id, class_of. rewrite Hd.
    destruct (e_domain e =? 0); lia.
  - unfold rpf_of. rewrite Hda. cbn [andb].
    by destruct (e_domain e =? 0).
Qed.

(** X4.  On a weight that is not negative and whose value to convert,
    [weight * 512 + 0.5], is below 2^15, the bound of the 16-bit cell, the
    fixed-point weight is the nearest integer of [weight * 512], halves
    rounded up. *)
Theorem fixed_point_rounds_nonneg w :
  (0 <= w)%Q -> (w * 512 + (1 # 2) < 32768)%Q ->
  fixed_point w = round_nearest (w * 512)%Q.
Proof. apply fixed_point_nonneg. Qed.

Lemma real_to_int_bounds q :
  (q - 1 < inject_Z (real_to_int q))%Q /\ (inject_Z (real_to_int q) < q + 1)%Q.
Proof.
  destruct q as [n d]. unfold real_to_int, Qlt, Qminus, Qplus, Qopp, inject_Z.
  cbn [Qnum Qden]. rewrite !Pos.mul_1_r, !Z.mul_1_r.
  pose proof (Z.quot_rem' n (Z.pos d)) as Hqr.
  destruct (Z.le_gt_cases 0 n) as [Hn|Hn].
  - pose proof (Z.rem_bound_pos n (Z.pos d) Hn ltac:(lia)) as Hr.
    revert Hqr Hr. generalize (Z.quot n (Z.pos d)) (Z.rem n (Z.pos d)).
    intros k r Hqr Hr. nia.
  - pose proof (Z.rem_bound_pos_neg n (Z.pos d) ltac:(lia) ltac:(lia)) as Hr.
    revert Hqr Hr. generalize (Z.quot n (Z.pos d)) (Z.rem n (Z.pos d)).
    intros k r Hqr Hr. nia.
Qed.

(** X5.  For a weight, negative or not, whose value to convert,
    [weight * 512 + 0.5], lies within the range [[-2^15, 2^15)] of the
    16-bit cell, the fixed-point weight lies strictly between
    [weight * 512 - 1/2] and [weight * 512 + 3/2]. *)
Theorem fixed_point_error w :
  (-32768 <= w * 512 + (1 # 2))%Q -> (w * 512 + (1 # 2) < 32768)%Q ->
  (w * 512 - (1 # 2) < inject_Z (fixed_point w))%Q
  /\ (inject_Z (fixed_point w) < w * 512 + (3 # 2))%Q.
Proof.
  intros Hfit0 Hfit1. unfold fixed_point.
  rewrite to_word_small by (by apply real_to_int_fits).
  destruct (real_to_int_bounds (w * 512 + (1 # 2))%Q) as [Hlo Hhi].
  split.
  - eapply Qle_lt_trans; [|exact Hlo].
    apply Qle_lteq. right. ring.
  - eapply Qlt_le_trans; [exact Hhi|].
    apply Qle_lteq. right. ring.
Qed.

Lemma context_id_range wfa e :
  e ∈ qualifying_edges wfa -> 0 <= context_id wfa e < offset4 (offsets wfa).
Proof.
  intros (_ & Hr & _)%qualifying_edge_elem.
  destruct (offsets_plain wfa) as (H1 & H2 & H3 & H4).
  pose proof (class_span wfa false) as Hn.
  pose proof (class_span wfa true) as Hd.
  pose proof (class_level_bounds wfa _ _ _ Hr eq_refl) as Hb.
  pose proof (class_span_nonempty wfa _ _ _ Hr eq_refl) as Hne.
  cbn [class_min class_max] in Hn, Hd.
  unfold context_id, class_of, flag in *.
  destruct (e_domain e =? 0), (delta_state wfa (e_state e));
    cbn [class_min class_max] in Hb, Hne; unfold level_m1 in *;
    destruct (dc (first_pass wfa)), (d_dc (first_pass wfa)); lia.
Qed.

(** X6.  With a budget of [N + extra] the second pass returns an array of
    that length, and every cell of it, the [extra] cells behind the [N]
    qualifying edges included, holds a valid context id, provided no cell
    is left over or the block of alphabet sizes has a cell at all
    ([offset4 >= 1]). *)
Theorem contexts_valid_for_decoder wfa extra :
  extra = 0%nat \/ 1 <= offset4 (offsets wfa) ->
  exists level_array,
    second_pass (length (qualifying_edges wfa) + extra) wfa = Done level_array
    /\ length level_array = (length (qualifying_edges wfa) + extra)%nat
    /\ Forall (fun id => 0 <= id < offset4 (offsets wfa)) level_array.
Proof.
  intros Hx. exists (contexts wfa extra).
  split; [apply second_pass_contexts|]. unfold contexts. split.
  - by rewrite length_app, length_fmap, length_replicate.
  - apply Forall_app. split.
    + apply Forall_fmap, Forall_forall. intros e He. cbn.
      by apply context_id_range.
    + destruct Hx as [->|H4]; [constructor|].
      apply Forall_replicate. lia.
Qed.

Lemma weights_of_with_weights wfa ws : weights_of (with_weights wfa ws) = ws.
Proof. by destruct ws. Qed.

Lemma write_edges_at_edge wfa es syms ws ws' e :
  NoDup (e_pos <$> es) -> (length es <= length syms)%nat -> e ∈ es ->
  w_real (write_edges wfa es syms ws') !! e_pos e
  = w_real (write_edges wfa es syms ws) !! e_pos e
  /\ w_int (write_edges wfa es syms ws') !! e_pos e
     = w_int (write_edges wfa es syms ws) !! e_pos e.
Proof.
  intros Hnd Hlen (k & Hk)%list_elem_of_lookup_1.
  destruct (lookup_lt_is_Some_2 syms k) as [sym Hsym].
  { apply lookup_lt_Some in Hk. lia. }
  destruct (write_edges_lookup wfa es syms ws k e sym Hnd Hk Hsym)
    as [-> ->].
  apply (write_edges_lookup wfa es syms ws' k e sym Hnd Hk Hsym).
Qed.

(** X7.  What the two arrays of weights held before a call does not enter
    the weights of the qualifying edges: if the call returns on an
    automaton, it returns, from the same stream, on the automaton whose
    arrays of weights hold anything else, with the same two weights at
    every qualifying edge; every other position keeps what it held. *)
Theorem read_weights_overwrites wfa ws input total wfa1 :
  decoder_delivers ->
  read_weights total wfa input = Done wfa1 ->
  exists wfa2,
    read_weights total (with_weights wfa ws) input = Done wfa2
    /\ (forall e, e ∈ qualifying_edges wfa ->
          weight wfa2 !! e_pos e = weight wfa1 !! e_pos e
          /\ int_weight wfa2 !! e_pos e = int_weight wfa1 !! e_pos e)
    /\ (forall pos, pos ∉ e_pos <$> qualifying_edges wfa ->
          weight wfa2 !! pos = w_real ws !! pos
          /\ int_weight wfa2 !! pos = w_int ws !! pos).
Proof.
  intros Hdec Hrun.
  assert (Hle : (length (qualifying_edges wfa) <= total)%nat).
  { destruct (Nat.le_gt_cases (length (qualifying_edges wfa)) total)
      as [|Hlt]; [done|].
    destruct (lookup_lt_is_Some_2 (qualifying_edges wfa) total Hlt) as [e He].
    unfold read_weights in Hrun.
    by rewrite (second_pass_overflow wfa total e He) in Hrun. }
  replace total
    with (length (qualifying_edges wfa) + (total - length (qualifying_edges wfa)))%nat
    in * by lia.
  set (extra := (total - length (qualifying_edges wfa))%nat) in *.
  assert (H4 : 1 <= offset4 (offsets wfa)).
  { destruct (Z.le_gt_cases 1 (offset4 (offsets wfa))) as [|H4]; [done|].
    by rewrite (read_weights_no_cell wfa input extra) in Hrun by lia. }
  set (syms := decode_array input (contexts wfa extra)
                 (cells (alphabet (wfainfo wfa) (offsets wfa)))
                 (offset4 (offsets wfa))
                 (length (qualifying_edges wfa) + extra) scale).
  assert (Hlen : (length (qualifying_edges wfa) <= length syms)%nat)
    by (unfold syms; rewrite Hdec; lia).
  assert (Hw : wfa1
               = with_weights wfa
                   (write_edges wfa (qualifying_edges wfa) syms
                      (weights_of wfa))).
  { rewrite (read_weights_run wfa input extra syms H4 eq_refl Hlen) in Hrun.
    by injection Hrun as <-. }
  rewrite Hw. clear Hw Hrun.
  pose proof (read_weights_run (with_weights wfa ws) input extra syms
                H4 eq_refl Hlen) as Hagain.
  rewrite weights_of_with_weights in Hagain.
  eexists. split; [exact Hagain|]. split.
  - intros e He.
    apply (write_edges_at_edge wfa (qualifying_edges wfa) syms
             (weights_of wfa) ws e (qualifying_edges_NoDup wfa) Hlen He).
  - intros pos Hpos.
    apply (write_edges_other wfa (qualifying_edges wfa) syms ws pos Hpos).
Qed.

End Further.

(** * Properties of the conversion of images *)

Lemma asr8_spec v : 256 * asr8 v <= v < 256 * asr8 v + 256.
Proof.
  unfold asr8. rewrite Z.shiftr_div_pow2 by lia. change (2 ^ 8) with 256.
  pose proof (Z.div_mod v 256 ltac:(lia)).
  pose proof (Z.mod_pos_bound v 256 ltac:(lia)). lia.
Qed.

Lemma byte_val_range b : 0 <= byte_val b <= 255.
Proof. unfold byte_val. pose proof (Byte.to_N_bounded b). lia. Qed.

Lemma to_uint8_byte_val b : to_uint8 (byte_val b) = b.
Proof.
  unfold to_uint8. pose proof (byte_val_range b) as Hb.
  rewrite Z.mod_small by lia. unfold byte_val.
  by rewrite N2Z.id, Byte.of_to_N.
Qed.

Lemma byte_val_to_uint8 v : 0 <= v <= 255 -> byte_val (to_uint8 v) = v.
Proof.
  intros Hv. unfold to_uint8. rewrite Z.mod_small by lia.
  destruct (Byte.of_N (Z.to_N v)) as [b|] eqn:Hb.
  - apply Byte.to_of_N in Hb. unfold byte_val; simpl. rewrite Hb. lia.
  - apply Byte.of_N_None_iff in Hb. lia.
Qed.

Lemma clamp255_range v : 0 <= clamp255 v <= 255.
Proof. unfold clamp255. lia. Qed.

Lemma clamp255_id v : 0 <= v <= 255 -> clamp255 v = v.
Proof. unfold clamp255. lia. Qed.

Lemma ycbcr_range R G B :
  0 <= R <= 255 -> 0 <= G <= 255 -> 0 <= B <= 255 ->
  16 <= luma R G B <= 235
  /\ 16 <= chroma_blue R G B <= 240
  /\ 16 <= chroma_red R G B <= 240.
Proof.
  intros HR HG HB. unfold luma, chroma_blue, chroma_red.
  pose proof (asr8_spec (66 * R + 129 * G + 25 * B + 128)).
  pose proof (asr8_spec (-38 * R - 74 * G + 112 * B + 128)).
  pose proof (asr8_spec (112 * R - 94 * G - 18 * B + 128)).
  lia.
Qed.

(** X8.  For bytes R, G and B the luma lies in [[16, 235]] and both chroma
    values in [[16, 240]]: the conversion never leaves the nominal range of
    YCbCr, and the cast to a 16-bit pixel keeps the value. *)
Theorem ycbcr_nominal_range (r g b : byte) :
  let R := byte_val r in
  let G := byte_val g in
  let B := byte_val b in
  16 <= luma R G B <= 235
  /\ 16 <= chroma_blue R G B <= 240
  /\ 16 <= chroma_red R G B <= 240
  /\ to_word (luma R G B) = luma R G B
  /\ to_word (chroma_blue R G B) = chroma_blue R G B
  /\ to_word (chroma_red R G B) = chroma_red R G B.
Proof.
  intros R G B.
  destruct (ycbcr_range R G B) as (Hy & Hb & Hc);
    try apply byte_val_range.
  repeat split; try lia; apply to_word_small; lia.
Qed.

(** X9.  A gray pixel (R = G = B) has the neutral chroma 128 in both chroma
    bands. *)
Theorem gray_has_neutral_chroma (v : Z) :
  chroma_blue v v v = 128 /\ chroma_red v v v = 128.
Proof.
  unfold chroma_blue, chroma_red.
  pose proof (asr8_spec (-38 * v - 74 * v + 112 * v + 128)).
  pose proof (asr8_spec (112 * v - 94 * v - 18 * v + 128)).
  lia.
Qed.

Lemma pixel_round_trip_Z R G B :
  0 <= R <= 255 -> 0 <= G <= 255 -> 0 <= B <= 255 ->
  let Y := luma R G B in
  let Cb := chroma_blue R G B in
  let Cr := chroma_red R G B in
  Z.abs (clamp255 (red_of Y Cb Cr) - R) <= 2
  /\ Z.abs (clamp255 (green_of Y Cb Cr) - G) <= 2
  /\ Z.abs (clamp255 (blue_of Y Cb Cr) - B) <= 3.
Proof.
  intros HR HG HB Y Cb Cr.
  unfold Y, Cb, Cr, luma, chroma_blue, chroma_red, red_of, green_of, blue_of,
    clamp255.
  pose proof (asr8_spec (66 * R + 129 * G + 25 * B + 128)).
  pose proof (asr8_spec (-38 * R - 74 * G + 112 * B + 128)).
  pose proof (asr8_spec (112 * R - 94 * G - 18 * B + 128)).
  set (y := asr8 (66 * R + 129 * G + 25 * B + 128)) in *.
  set (cb := asr8 (-38 * R - 74 * G + 112 * B + 128)) in *.
  set (cr := asr8 (112 * R - 94 * G - 18 * B + 128)) in *.
  clearbody y cb cr.
  replace (y + 16 - 16) with y by lia.
  replace (cb + 128 - 128) with cb by lia.
  replace (cr + 128 - 128) with cr by lia.
  pose proof (asr8_spec (298 * y + 409 * cr + 128)).
  pose proof (asr8_spec (298 * y - 100 * cb - 208 * cr + 128)).
  pose proof (asr8_spec (298 * y + 516 * cb + 128)).
  set (r := asr8 (298 * y + 409 * cr + 128)) in *.
  set (g := asr8 (298 * y - 100 * cb - 208 * cr + 128)) in *.
  set (b := asr8 (298 * y + 516 * cb + 128)) in *.
  clearbody r g b.
  repeat split; lia.
Qed.

(** X10.  Converting a pixel of bytes to YCbCr and back, with the clamp, gives
    each of R and G back up to 2 and B up to 3. *)
Theorem pixel_round_trip (r g b : byte) :
  let Y := luma (byte_val r) (byte_val g) (byte_val b) in
  let Cb := chroma_blue (byte_val r) (byte_val g) (byte_val b) in
  let Cr := chroma_red (byte_val r) (byte_val g) (byte_val b) in
  Z.abs (byte_val (to_uint8 (clamp255 (red_of Y Cb Cr))) - byte_val r) <= 2
  /\ Z.abs (byte_val (to_uint8 (clamp255 (green_of Y Cb Cr))) - byte_val g) <= 2
  /\ Z.abs (byte_val (to_uint8 (clamp255 (blue_of Y Cb Cr))) - byte_val b) <= 3.
Proof.
  intros Y Cb Cr.
  rewrite !byte_val_to_uint8 by apply clamp255_range.
  apply pixel_round_trip_Z; apply byte_val_range.
Qed.

(** ** The loops over the pixels *)

Lemma each_seq_run {T} (body : nat -> T -> outcome T) (st : nat -> T) a n :
  (forall k, (a <= k < a + n)%nat -> body k (st k) = Returns (st (S k))) ->
  each body (seq a n) (st a) = Returns (st (a + n)%nat).
Proof.
  revert a. induction n as [|n IH]; intros a Hstep; simpl.
  - by rewrite Nat.add_0_r.
  - rewrite Hstep by lia. simpl. rewrite IH.
    + f_equal. f_equal. lia.
    + intros k Hk. apply Hstep. lia.
Qed.

Lemma pixel_loop_run {T} (body : nat -> nat -> T -> outcome T)
    (st : nat -> T) (W H : nat) :
  (forall y x, (y < H)%nat -> (x < W)%nat ->
     body y x (st (y * W + x)%nat) = Returns (st (S (y * W + x)))) ->
  pixel_loop (Z.of_nat W) (Z.of_nat H) body (st 0%nat)
  = Returns (st (H * W)%nat).
Proof.
  intros Hstep. unfold pixel_loop. rewrite !Nat2Z.id.
  apply (each_seq_run (fun y => each (body y) (seq 0 W))
           (fun y => st (y * W)%nat) 0 H).
  intros y Hy.
  pose proof (each_seq_run (body y) (fun x => st (y * W + x)%nat) 0 W) as Hrow.
  cbn beta in Hrow. rewrite Nat.add_0_r in Hrow. rewrite Hrow.
  - f_equal. f_equal. simpl. lia.
  - intros x Hx. rewrite Hstep by lia. f_equal. f_equal. lia.
Qed.

Lemma each_never_throws {A T} (body : A -> T -> outcome T) xs s what :
  (forall x s' what', body x s' <> Throws what') ->
  each body xs s <> Throws what.
Proof.
  intros Hbody. revert s. induction xs as [|x xs IH]; intros s; simpl.
  - discriminate.
  - destruct (body x s) as [s'| what' |] eqn:Hx; simpl.
    + apply IH.
    + by destruct (Hbody x s what').
    + discriminate.
Qed.

Lemma peek_never_throws {A} (arr : list A) i what : peek arr i <> Throws what.
Proof.
  unfold peek. destruct (bool_decide (0 <= i)); [|discriminate].
  destruct (arr !! Z.to_nat i); discriminate.
Qed.

Lemma peek_lookup {A} (arr : list A) (i : nat) v :
  arr !! i = Some v -> peek arr (Z.of_nat i) = Returns v.
Proof.
  intros Hv. unfold peek. rewrite bool_decide_true by lia.
  by rewrite Nat2Z.id, Hv.
Qed.

Lemma pixel_index_small (W H y x : nat) :
  (y < H)%nat -> (x < W)%nat -> Z.of_nat (H * W) < 2 ^ 32 ->
  pixel_index (Z.of_nat W) y x = Z.of_nat (y * W + x).
Proof.
  intros Hy Hx Hsmall. unfold pixel_index, wrap32.
  rewrite Z.mod_small; [lia|]. nia.
Qed.

(** ** Lists filled cell by cell *)

Lemma length_tabulate {A} (f : nat -> A) n : length (tabulate f n) = n.
Proof. unfold tabulate. by rewrite length_fmap, length_seq. Qed.

Lemma lookup_tabulate {A} (f : nat -> A) n k :
  (k < n)%nat -> tabulate f n !! k = Some (f k).
Proof.
  intros Hk. unfold tabulate. rewrite list_lookup_fmap, lookup_seq_lt by done.
  done.
Qed.

Lemma filled_0 {A} (blank : A) full :
  filled blank full 0 = replicate (length full) blank.
Proof. unfold filled. by rewrite take_0, Nat.sub_0_r. Qed.

Lemma filled_all {A} (blank : A) full :
  filled blank full (length full) = full.
Proof.
  unfold filled. by rewrite firstn_all, Nat.sub_diag, app_nil_r.
Qed.

Lemma poke_filled {A} (blank : A) full k v :
  full !! k = Some v ->
  poke (Z.of_nat k) v (filled blank full k) = filled blank full (S k).
Proof.
  intros Hv. pose proof (lookup_lt_Some _ _ _ Hv) as Hk.
  unfold poke, filled.
  rewrite bool_decide_true
    by (rewrite length_app, length_take, length_replicate; lia).
  rewrite Nat2Z.id, insert_app_r_alt by (rewrite length_take; lia).
  rewrite length_take, Nat.min_l, Nat.sub_diag by lia.
  replace (length full - k)%nat with (S (length full - S k)) by lia.
  simpl. rewrite (take_S_r _ _ _ Hv), <- app_assoc. done.
Qed.

(** ** The conversions, run on arrays and images of the expected sizes *)

Section Images.
Context `{L : image_library}.

Lemma byte_at_lookup data i :
  (i < length data)%nat ->
  exists b, data !! i = Some b /\ byte_at data i = byte_val b.
Proof.
  intros Hi. destruct (lookup_lt_is_Some_2 data i Hi) as [b Hb].
  exists b. split; [done|]. unfold byte_at. by rewrite Hb.
Qed.

Lemma byte_at_range data i : 0 <= byte_at data i <= 255.
Proof. apply byte_val_range. Qed.

Lemma lookup_band_of f data n k :
  (k < n)%nat ->
  band_of f data n !! k
  = Some (f (byte_at data (3 * k)) (byte_at data (3 * k + 1))
            (byte_at data (3 * k + 2))).
Proof. intros Hk. unfold band_of. by rewrite lookup_tabulate. Qed.

Lemma length_band_of f data n : length (band_of f data n) = n.
Proof. apply length_tabulate. Qed.

Lemma filled_tabulate {A} (blank : A) f n :
  filled blank (tabulate f n) n = tabulate f n.
Proof.
  pose proof (filled_all blank (tabulate f n)) as Hall.
  by rewrite length_tabulate in Hall.
Qed.

Lemma filled_band_of f data n :
  filled 0 (band_of f data n) n = band_of f data n.
Proof. apply filled_tabulate. Qed.

Lemma numpy_to_image_color_run (H W : nat) c data :
  allocates (Z.of_nat W) (Z.of_nat H) true ->
  Z.of_nat H < 2 ^ 32 -> Z.of_nat W < 2 ^ 32 -> 3 <= c ->
  Z.of_nat (H * W * 3) < 2 ^ 32 ->
  (H * W * 3 <= length data)%nat ->
  numpy_to_image {| shape := [Z.of_nat H; Z.of_nat W; c]; buffer := data |}
  = Returns {| width := Z.of_nat W; height := Z.of_nat H; color := true;
               band0 := band_of luma data (H * W);
               band1 := band_of chroma_blue data (H * W);
               band2 := band_of chroma_red data (H * W) |}.
Proof.
  intros Halloc HH HW Hc Hsmall Hlen.
  unfold numpy_to_image. cbn [shape buffer length nth].
  change ((3 <? 2)%nat || (3 <? 3)%nat) with false. cbn iota.
  rewrite !(wrap32_small (Z.of_nat _)) by lia.
  replace (3 <=? c) with true by (symmetry; apply Z.leb_le; lia).
  change ((3 =? 3)%nat && true) with true. cbn iota.
  rewrite Halloc. unfold blank_image, with_bands.
  cbn [width height color band0 band1 band2].
  replace (Z.to_nat (Z.of_nat W * Z.of_nat H)) with (H * W)%nat by lia.
  set (st := fun k : nat =>
               (filled 0 (band_of luma data (H * W)) k,
                filled 0 (band_of chroma_blue data (H * W)) k,
                filled 0 (band_of chroma_red data (H * W)) k)).
  match goal with
  | |- context [pixel_loop _ _ ?body ?init] =>
      pose proof (pixel_loop_run body st W H) as Hloop;
      replace init with (st 0%nat)
        by (unfold st; by rewrite !filled_0, !length_band_of)
  end.
  rewrite Hloop.
  - unfold st. cbn [and_then fst snd].
    by rewrite !filled_band_of.
  - intros y x Hy Hx. unfold st. cbn beta iota.
    rewrite (pixel_index_small W H) by (done || lia).
    set (k := (y * W + x)%nat).
    assert (Hk : (k < H * W)%nat) by (unfold k; nia).
    replace (wrap32 (Z.of_nat k * 3)) with (Z.of_nat (3 * k))
      by (rewrite wrap32_small; lia).
    replace (wrap32 (Z.of_nat (3 * k) + 1)) with (Z.of_nat (3 * k + 1))
      by (rewrite wrap32_small; lia).
    replace (wrap32 (Z.of_nat (3 * k) + 2)) with (Z.of_nat (3 * k + 2))
      by (rewrite wrap32_small; lia).
    destruct (byte_at_lookup data (3 * k)) as (r & Hr & Hr'); [lia|].
    destruct (byte_at_lookup data (3 * k + 1)) as (g & Hg & Hg'); [lia|].
    destruct (byte_at_lookup data (3 * k + 2)) as (b & Hb & Hb'); [lia|].
    rewrite (peek_lookup _ _ _ Hr), (peek_lookup _ _ _ Hg),
      (peek_lookup _ _ _ Hb).
    cbn [and_then].
    destruct (ycbcr_range (byte_val r) (byte_val g) (byte_val b))
      as (Hy0 & Hy1 & Hy2); try apply byte_val_range.
    rewrite !to_word_small by lia.
    rewrite <- Hr', <- Hg', <- Hb'.
    rewrite !poke_filled by (by apply lookup_band_of).
    done.
Qed.

Lemma numpy_to_image_gray_run (H W : nat) data :
  allocates (Z.of_nat W) (Z.of_nat H) false ->
  Z.of_nat H < 2 ^ 32 -> Z.of_nat W < 2 ^ 32 ->
  Z.of_nat (H * W) < 2 ^ 32 ->
  (H * W <= length data)%nat ->
  numpy_to_image {| shape := [Z.of_nat H; Z.of_nat W]; buffer := data |}
  = Returns {| width := Z.of_nat W; height := Z.of_nat H; color := false;
               band0 := tabulate (byte_at data) (H * W);
               band1 := []; band2 := [] |}.
Proof.
  intros Halloc HH HW Hsmall Hlen.
  unfold numpy_to_image. cbn [shape buffer length nth].
  change ((2 <? 2)%nat || (3 <? 2)%nat) with false. cbn iota.
  rewrite !(wrap32_small (Z.of_nat _)) by lia.
  change ((2 =? 3)%nat && (3 <=? 0)) with false. cbn iota.
  rewrite Halloc. unfold blank_image, with_bands.
  cbn [width height color band0 band1 band2].
  replace (Z.to_nat (Z.of_nat W * Z.of_nat H)) with (H * W)%nat by lia.
  set (st := fun k : nat => filled 0 (tabulate (byte_at data) (H * W)) k).
  match goal with
  | |- context [pixel_loop _ _ ?body ?init] =>
      pose proof (pixel_loop_run body st W H) as Hloop;
      replace init with (st 0%nat)
        by (unfold st; by rewrite filled_0, length_tabulate)
  end.
  rewrite Hloop.
  - unfold st. cbn [and_then]. by rewrite filled_tabulate.
  - intros y x Hy Hx. unfold st.
    rewrite (pixel_index_small W H) by (done || lia).
    set (k := (y * W + x)%nat).
    assert (Hk : (k < H * W)%nat) by (unfold k; nia).
    destruct (byte_at_lookup data k) as (v & Hv & Hv'); [lia|].
    rewrite (peek_lookup _ _ _ Hv). cbn [and_then].
    pose proof (byte_val_range v).
    rewrite to_word_small by lia. rewrite <- Hv'.
    rewrite poke_filled by (by apply lookup_tabulate).
    done.
Qed.

Lemma pixel_at_lookup band k :
  (k < length band)%nat ->
  exists p, band !! k = Some p /\ pixel_at band k = p.
Proof.
  intros Hk. destruct (lookup_lt_is_Some_2 band k Hk) as [p Hp].
  exists p. split; [done|]. unfold pixel_at. by rewrite Hp.
Qed.

Lemma channel_of_pixel img k :
  let p0 := pixel_at (band0 img) k in
  let p1 := pixel_at (band1 img) k in
  let p2 := pixel_at (band2 img) k in
  channel_of img (3 * k) = to_uint8 (clamp255 (red_of p0 p1 p2))
  /\ channel_of img (3 * k + 1) = to_uint8 (clamp255 (green_of p0 p1 p2))
  /\ channel_of img (3 * k + 2) = to_uint8 (clamp255 (blue_of p0 p1 p2)).
Proof.
  intros p0 p1 p2. unfold channel_of.
  rewrite <- (Nat.div_unique (3 * k) 3 k 0) by lia.
  rewrite <- (Nat.mod_unique (3 * k) 3 k 0) by lia.
  rewrite <- (Nat.div_unique (3 * k + 1) 3 k 1) by lia.
  rewrite <- (Nat.mod_unique (3 * k + 1) 3 k 1) by lia.
  rewrite <- (Nat.div_unique (3 * k + 2) 3 k 2) by lia.
  rewrite <- (Nat.mod_unique (3 * k + 2) 3 k 2) by lia.
  done.
Qed.

Lemma image_to_numpy_color_run (H W : nat) img :
  width img = Z.of_nat W -> height img = Z.of_nat H -> color img = true ->
  Z.of_nat H < 2 ^ 32 -> Z.of_nat W < 2 ^ 32 ->
  Z.of_nat (H * W) < 2 ^ 32 ->
  (H * W <= length (band0 img))%nat ->
  (H * W <= length (band1 img))%nat ->
  (H * W <= length (band2 img))%nat ->
  image_to_numpy (Some img)
  = Returns {| shape := [Z.of_nat H; Z.of_nat W; 3];
               buffer := tabulate (channel_of img) (H * W * 3) |}.
Proof.
  intros Hw Hh Hcolor HH HW Hsmall Hlen0 Hlen1 Hlen2.
  unfold image_to_numpy. rewrite Hw, Hh, Hcolor.
  rewrite !(wrap32_small (Z.of_nat _)) by lia.
  unfold fresh_array.
  replace (Z.to_nat (Z.of_nat H * Z.of_nat W * 3)) with (H * W * 3)%nat
    by lia.
  set (full := tabulate (channel_of img) (H * W * 3)).
  set (st := fun k : nat => filled x00 full (3 * k)).
  match goal with
  | |- context [pixel_loop _ _ ?body ?init] =>
      pose proof (pixel_loop_run body st W H) as Hloop;
      replace init with (st 0%nat)
        by (unfold st, full; by rewrite filled_0, length_tabulate)
  end.
  rewrite Hloop.
  - unfold st. cbn [and_then].
    replace (3 * (H * W))%nat with (H * W * 3)%nat by lia.
    unfold full. by rewrite filled_tabulate.
  - intros y x Hy Hx. unfold st. cbn beta.
    rewrite (pixel_index_small W H) by (done || lia).
    replace ((Z.of_nat y * Z.of_nat W + Z.of_nat x) * 3)
      with (Z.of_nat (3 * (y * W + x))) by lia.
    set (k := (y * W + x)%nat).
    assert (Hk : (k < H * W)%nat) by (unfold k; nia).
    destruct (pixel_at_lookup (band0 img) k) as (p0 & Hp0 & Hp0'); [lia|].
    destruct (pixel_at_lookup (band1 img) k) as (p1 & Hp1 & Hp1'); [lia|].
    destruct (pixel_at_lookup (band2 img) k) as (p2 & Hp2 & Hp2'); [lia|].
    rewrite (peek_lookup _ _ _ Hp0), (peek_lookup _ _ _ Hp1),
      (peek_lookup _ _ _ Hp2).
    cbn [and_then].
    destruct (channel_of_pixel img k) as (Hr & Hg & Hb).
    rewrite Hp0', Hp1', Hp2' in Hr, Hg, Hb.
    rewrite <- Hr, <- Hg, <- Hb.
    rewrite poke_filled
      by (unfold full; apply lookup_tabulate; lia).
    replace (Z.of_nat (3 * k) + 1) with (Z.of_nat (S (3 * k))) by lia.
    replace (3 * k + 1)%nat with (S (3 * k)) by lia.
    rewrite poke_filled
      by (unfold full; apply lookup_tabulate; lia).
    replace (Z.of_nat (3 * k) + 2) with (Z.of_nat (S (S (3 * k)))) by lia.
    replace (3 * k + 2)%nat with (S (S (3 * k))) by lia.
    rewrite poke_filled
      by (unfold full; apply lookup_tabulate; lia).
    do 2 f_equal. lia.
Qed.

Lemma image_to_numpy_gray_run (H W : nat) img :
  width img = Z.of_nat W -> height img = Z.of_nat H -> color img = false ->
  Z.of_nat H < 2 ^ 32 -> Z.of_nat W < 2 ^ 32 ->
  Z.of_nat (H * W) < 2 ^ 32 ->
  (H * W <= length (band0 img))%nat ->
  image_to_numpy (Some img)
  = Returns {| shape := [Z.of_nat H; Z.of_nat W];
               buffer := tabulate
                           (fun k => to_uint8 (clamp255 (pixel_at (band0 img) k)))
                           (H * W) |}.
Proof.
  intros Hw Hh Hcolor HH HW Hsmall Hlen0.
  unfold image_to_numpy. rewrite Hw, Hh, Hcolor.
  rewrite !(wrap32_small (Z.of_nat _)) by lia.
  unfold fresh_array.
  replace (Z.to_nat (Z.of_nat H * Z.of_nat W)) with (H * W)%nat by lia.
  set (full := tabulate
                 (fun k => to_uint8 (clamp255 (pixel_at (band0 img) k)))
                 (H * W)).
  set (st := fun k : nat => filled x00 full k).
  match goal with
  | |- context [pixel_loop _ _ ?body ?init] =>
      pose proof (pixel_loop_run body st W H) as Hloop;
      replace init with (st 0%nat)
        by (unfold st, full; by rewrite filled_0, length_tabulate)
  end.
  rewrite Hloop.
  - unfold st, full. cbn [and_then]. by rewrite filled_tabulate.
  - intros y x Hy Hx. unfold st. cbn beta.
    rewrite (pixel_index_small W H) by (done || lia).
    replace (Z.of_nat y * Z.of_nat W + Z.of_nat x)
      with (Z.of_nat (y * W + x)) by lia.
    set (k := (y * W + x)%nat).
    assert (Hk : (k < H * W)%nat) by (unfold k; nia).
    destruct (pixel_at_lookup (band0 img) k) as (p0 & Hp0 & Hp0'); [lia|].
    rewrite (peek_lookup _ _ _ Hp0). cbn [and_then].
    rewrite <- Hp0'.
    rewrite poke_filled
      by (unfold full;
          by apply (lookup_tabulate
                      (fun k => to_uint8 (clamp255 (pixel_at (band0 img) k))))).
    done.
Qed.

Lemma tabulate_lookup_eq {A} (l : list A) (f : nat -> A) :
  (forall k v, l !! k = Some v -> f k = v) ->
  tabulate f (length l) = l.
Proof.
  intros Hf. apply list_eq. intros i.
  destruct (decide (i < length l)%nat) as [Hi|Hi].
  - rewrite lookup_tabulate by done.
    destruct (lookup_lt_is_Some_2 l i Hi) as [v Hv].
    by rewrite Hv, (Hf i v Hv).
  - rewrite !lookup_ge_None_2; [done|lia|rewrite length_tabulate; lia].
Qed.

Lemma of_nat_to_nat_mul h w :
  0 <= h -> 0 <= w -> Z.to_nat (h * w) = (Z.to_nat h * Z.to_nat w)%nat.
Proof. intros. by rewrite Z2Nat.inj_mul. Qed.

(** ** The conversions of whole arrays *)

(** X11.  An array of [h] rows, [w] columns and [c >= 3] channels, with
    fewer than 2^32 bytes in three channels, is converted, if the library
    allocates the image, to a colour image of [w] by [h] pixels without a
    load from outside of the buffer; pixel [k]
    of the three bands holds Y, Cb and Cr of the bytes [3 k], [3 k + 1] and
    [3 k + 2] of the buffer, whatever the number of channels is. *)
Theorem numpy_to_image_planes (a : ndarray) (h w c : Z) :
  shape a = [h; w; c] -> allocates w h true ->
  0 <= h < 2 ^ 32 -> 0 <= w < 2 ^ 32 -> 3 <= c ->
  h * w * 3 < 2 ^ 32 ->
  h * w * 3 <= Z.of_nat (length (buffer a)) ->
  exists img,
    numpy_to_image a = Returns img
    /\ width img = w /\ height img = h /\ color img = true
    /\ length (band0 img) = Z.to_nat (h * w)
    /\ length (band1 img) = Z.to_nat (h * w)
    /\ length (band2 img) = Z.to_nat (h * w)
    /\ forall k r g b,
         (k < Z.to_nat (h * w))%nat ->
         buffer a !! (3 * k)%nat = Some r ->
         buffer a !! (3 * k + 1)%nat = Some g ->
         buffer a !! (3 * k + 2)%nat = Some b ->
         band0 img !! k = Some (luma (byte_val r) (byte_val g) (byte_val b))
         /\ band1 img !! k
            = Some (chroma_blue (byte_val r) (byte_val g) (byte_val b))
         /\ band2 img !! k
            = Some (chroma_red (byte_val r) (byte_val g) (byte_val b)).
Proof.
  destruct a as [sh data]. cbn [shape buffer].
  intros -> Halloc Hh Hw Hc Hsmall Hlen.
  rewrite of_nat_to_nat_mul by lia.
  pose proof (numpy_to_image_color_run (Z.to_nat h) (Z.to_nat w) c data)
    as Hrun.
  rewrite !Z2Nat.id in Hrun by lia.
  eexists. split; [apply Hrun; (done || nia)|]. cbn [width height color band0 band1 band2].
  rewrite !length_band_of. repeat split; try done.
  all: rewrite lookup_band_of by done; unfold byte_at.
  all: by match goal with
          | Hr : _ !! (3 * _)%nat = Some _, Hg : _ !! (3 * _ + 1)%nat = Some _,
            Hb : _ !! (3 * _ + 2)%nat = Some _ |- _ => rewrite Hr, Hg, Hb
          end.
Qed.

(** X12.  A colour image of [width] by [height] pixels, fewer than 2^32,
    whose three bands hold that many pixels, is converted to an array of
    shape [height, width, 3] without a load from outside of a band; every
    byte of the array is written, and the bytes [3 k], [3 k + 1] and
    [3 k + 2] are the clamped R, G and B of pixel [k]. *)
Theorem image_to_numpy_pixels (img : image_t) :
  color img = true ->
  0 <= height img < 2 ^ 32 -> 0 <= width img < 2 ^ 32 ->
  height img * width img < 2 ^ 32 ->
  (Z.to_nat (height img * width img) <= length (band0 img))%nat ->
  (Z.to_nat (height img * width img) <= length (band1 img))%nat ->
  (Z.to_nat (height img * width img) <= length (band2 img))%nat ->
  exists a,
    image_to_numpy (Some img) = Returns a
    /\ shape a = [height img; width img; 3]
    /\ length (buffer a) = (Z.to_nat (height img * width img) * 3)%nat
    /\ forall k p0 p1 p2,
         (k < Z.to_nat (height img * width img))%nat ->
         band0 img !! k = Some p0 ->
         band1 img !! k = Some p1 ->
         band2 img !! k = Some p2 ->
         buffer a !! (3 * k)%nat
         = Some (to_uint8 (clamp255 (red_of p0 p1 p2)))
         /\ buffer a !! (3 * k + 1)%nat
            = Some (to_uint8 (clamp255 (green_of p0 p1 p2)))
         /\ buffer a !! (3 * k + 2)%nat
            = Some (to_uint8 (clamp255 (blue_of p0 p1 p2))).
Proof.
  intros Hcolor Hh Hw Hsmall.
  rewrite of_nat_to_nat_mul by lia. intros Hlen0 Hlen1 Hlen2.
  pose proof (image_to_numpy_color_run (Z.to_nat (height img))
                (Z.to_nat (width img)) img) as Hrun.
  rewrite !Z2Nat.id in Hrun by lia.
  eexists. split; [apply Hrun; (done || nia)|]. cbn [shape buffer].
  rewrite length_tabulate. repeat split; try done.
  all: rewrite lookup_tabulate by lia.
  all: destruct (channel_of_pixel img k) as (Hr & Hg & Hb).
  all: unfold pixel_at in Hr, Hg, Hb.
  all: match goal with
       | H0 : band0 _ !! _ = Some _, H1 : band1 _ !! _ = Some _,
         H2 : band2 _ !! _ = Some _ |- _ =>
           rewrite H0, H1, H2 in Hr, Hg, Hb
       end.
  all: by f_equal.
Qed.

(** X13.  A grayscale image whose band holds [width * height] pixels is
    converted to an array of shape [height, width] whose byte [k] is pixel
    [k] clamped to [[0, 255]]: 0 for a negative pixel, 255 for one above
    255. *)
Theorem image_to_numpy_gray_clamps (img : image_t) :
  color img = false ->
  0 <= height img < 2 ^ 32 -> 0 <= width img < 2 ^ 32 ->
  height img * width img < 2 ^ 32 ->
  (Z.to_nat (height img * width img) <= length (band0 img))%nat ->
  exists a,
    image_to_numpy (Some img) = Returns a
    /\ shape a = [height img; width img]
    /\ length (buffer a) = Z.to_nat (height img * width img)
    /\ forall k p,
         (k < Z.to_nat (height img * width img))%nat ->
         band0 img !! k = Some p ->
         exists b, buffer a !! k = Some b
                   /\ byte_val b = Z.max 0 (Z.min 255 p).
Proof.
  intros Hcolor Hh Hw Hsmall.
  rewrite of_nat_to_nat_mul by lia. intros Hlen0.
  pose proof (image_to_numpy_gray_run (Z.to_nat (height img))
                (Z.to_nat (width img)) img) as Hrun.
  rewrite !Z2Nat.id in Hrun by lia.
  eexists. split; [apply Hrun; (done || nia)|]. cbn [shape buffer].
  rewrite length_tabulate. repeat split; try done.
  intros k p Hk Hp. eexists. split; [by apply lookup_tabulate|].
  cbn beta. unfold pixel_at. rewrite Hp. cbn [default from_option].
  apply byte_val_to_uint8, clamp255_range.
Qed.

(** X14.  A two-dimensional array of [h * w < 2^32] bytes, converted to an
    image (which the library allocates) and back, is the same array: same
    shape, same bytes. *)
Theorem gray_round_trip (a : ndarray) (h w : Z) :
  shape a = [h; w] -> allocates w h false ->
  0 <= h < 2 ^ 32 -> 0 <= w < 2 ^ 32 -> h * w < 2 ^ 32 ->
  Z.of_nat (length (buffer a)) = h * w ->
  (do* img := numpy_to_image a in image_to_numpy (Some img)) = Returns a.
Proof.
  destruct a as [sh data]. cbn [shape buffer].
  intros -> Halloc Hh Hw Hsmall Hlen.
  pose proof (numpy_to_image_gray_run (Z.to_nat h) (Z.to_nat w) data) as Hto.
  rewrite !Z2Nat.id in Hto by lia. rewrite Hto by (done || nia).
  cbn [and_then].
  pose proof (image_to_numpy_gray_run (Z.to_nat h) (Z.to_nat w)) as Hfrom.
  rewrite !Z2Nat.id in Hfrom by lia.
  rewrite Hfrom; try done; try nia;
    [|cbn [band0]; rewrite length_tabulate; lia].
  cbn [band0]. do 2 f_equal.
  replace (Z.to_nat h * Z.to_nat w)%nat with (length data) by nia.
  apply tabulate_lookup_eq. intros k v Hv.
  pose proof (lookup_lt_Some _ _ _ Hv) as Hk.
  unfold pixel_at. rewrite lookup_tabulate by done. cbn [default from_option].
  unfold byte_at. rewrite Hv. cbn [default from_option].
  rewrite clamp255_id by apply byte_val_range.
  apply to_uint8_byte_val.
Qed.

(** X15.  An array of [h] by [w] pixels in three channels, fewer than 2^32
    bytes, converted to an image (which the library allocates) and back, is
    an array of the same shape and
    length; each byte of the channels R and G differs from the original by 2
    at most, each byte of the channel B by 3 at most. *)
Theorem color_round_trip (a : ndarray) (h w : Z) :
  shape a = [h; w; 3] -> allocates w h true ->
  0 <= h < 2 ^ 32 -> 0 <= w < 2 ^ 32 -> h * w * 3 < 2 ^ 32 ->
  Z.of_nat (length (buffer a)) = h * w * 3 ->
  exists a',
    (do* img := numpy_to_image a in image_to_numpy (Some img)) = Returns a'
    /\ shape a' = shape a
    /\ length (buffer a') = length (buffer a)
    /\ forall i b b',
         buffer a !! i = Some b -> buffer a' !! i = Some b' ->
         Z.abs (byte_val b' - byte_val b)
         <= (if (i mod 3 =? 2)%nat then 3 else 2).
Proof.
  destruct a as [sh data]. cbn [shape buffer].
  intros -> Halloc Hh Hw Hsmall Hlen.
  pose proof (numpy_to_image_color_run (Z.to_nat h) (Z.to_nat w) 3 data)
    as Hto.
  rewrite !Z2Nat.id in Hto by lia. rewrite Hto by (done || nia).
  cbn [and_then].
  pose proof (image_to_numpy_color_run (Z.to_nat h) (Z.to_nat w)) as Hfrom.
  rewrite !Z2Nat.id in Hfrom by lia.
  set (n := (Z.to_nat h * Z.to_nat w)%nat) in *.
  assert (Hn : length data = (n * 3)%nat) by (unfold n; nia).
  eexists. split.
  { apply Hfrom; try done; try (unfold n; nia);
      cbn [band0 band1 band2]; by rewrite length_band_of. }
  cbn [shape buffer]. rewrite length_tabulate.
  split; [done|]. split; [done|].
  intros i b b' Hb Hb'.
  pose proof (lookup_lt_Some _ _ _ Hb) as Hi.
  rewrite lookup_tabulate in Hb' by lia. injection Hb' as <-.
  pose proof (Nat.div_mod_eq i 3) as Hdiv.
  pose proof (Nat.mod_upper_bound i 3 ltac:(lia)) as Hmod.
  set (k := (i / 3)%nat) in *. set (j := (i mod 3)%nat) in *.
  assert (Hk : (k < n)%nat) by lia.
  destruct (channel_of_pixel
              {| width := w; height := h; color := true;
                 band0 := band_of luma data n;
                 band1 := band_of chroma_blue data n;
                 band2 := band_of chroma_red data n |} k)
    as (Hr & Hg & Hbl).
  cbn [band0 band1 band2] in Hr, Hg, Hbl. unfold pixel_at in Hr, Hg, Hbl.
  rewrite !lookup_band_of in Hr, Hg, Hbl by done.
  cbn [default from_option] in Hr, Hg, Hbl.
  destruct (pixel_round_trip_Z (byte_at data (3 * k))
              (byte_at data (3 * k + 1)) (byte_at data (3 * k + 2)))
    as (HR & HG & HB); try apply byte_at_range.
  cbn zeta in HR, HG, HB.
  assert (Hbyte : byte_val b = byte_at data i)
    by (unfold byte_at; by rewrite Hb).
  rewrite Hbyte.
  assert (Hcase : j = 0%nat \/ j = 1%nat \/ j = 2%nat) by lia.
  destruct Hcase as [Hj|[Hj|Hj]]; rewrite Hj in *; cbn [Nat.eqb].
  - replace i with (3 * k)%nat by lia.
    unfold channel_of in *. cbn [width height color band0 band1 band2] in *.
    rewrite Hr. rewrite byte_val_to_uint8 by apply clamp255_range. exact HR.
  - replace i with (3 * k + 1)%nat by lia.
    unfold channel_of in *. cbn [width height color band0 band1 band2] in *.
    rewrite Hg. rewrite byte_val_to_uint8 by apply clamp255_range. exact HG.
  - replace i with (3 * k + 2)%nat by lia.
    unfold channel_of in *. cbn [width height color band0 band1 band2] in *.
    rewrite Hbl. rewrite byte_val_to_uint8 by apply clamp255_range. exact HB.
Qed.

Lemma pixel_loop_never_throws {T} (body : nat -> nat -> T -> outcome T)
    width height s what :
  (forall y x s' what', body y x s' <> Throws what') ->
  pixel_loop width height body s <> Throws what.
Proof.
  intros Hbody. unfold pixel_loop. apply each_never_throws.
  intros y s' what'. apply each_never_throws. intros x s''. apply Hbody.
Qed.

Lemma and_then_throws {A B} (r : outcome A) (k : A -> outcome B) what :
  and_then r k = Throws what ->
  r = Throws what \/ exists a, r = Returns a /\ k a = Throws what.
Proof.
  destruct r as [a| what' |]; simpl; intros Hr.
  - right. by exists a.
  - left. by injection Hr as ->.
  - discriminate.
Qed.

(** X16.  [numpy_to_image] throws the error on the dimensions exactly when
    the array has fewer than two or more than three dimensions, whatever the
    library does: neither a failed allocation nor the loops over the pixels
    throw it. *)
Theorem numpy_to_image_dimensions (a : ndarray) :
  numpy_to_image a = Throws "Image must be 2D (grayscale) or 3D (RGB)"
  <-> (length (shape a) < 2 \/ 3 < length (shape a))%nat.
Proof.
  unfold numpy_to_image.
  destruct ((length (shape a) <? 2)%nat || (3 <? length (shape a))%nat)
    eqn:Hdim.
  - split; [intros _|done].
    apply orb_true_iff in Hdim as [Hd|Hd]; apply Nat.ltb_lt in Hd; lia.
  - split.
    + intros Hthrows. exfalso. revert Hthrows.
      destruct (alloc_image _ _ _) as [img|]; [|discriminate].
      destruct ((length (shape a) =? 3)%nat && (3 <=? nth 2 (shape a) 0)).
      * intros Hthrows. apply and_then_throws in Hthrows
          as [Hloop|(bands & _ & Hret)]; [|discriminate].
        revert Hloop. apply pixel_loop_never_throws.
        intros y x [[b0 b1] b2] what' Hbody.
        apply and_then_throws in Hbody as [Hp|(r & _ & Hbody)];
          [by apply peek_never_throws in Hp|].
        apply and_then_throws in Hbody as [Hp|(g & _ & Hbody)];
          [by apply peek_never_throws in Hp|].
        apply and_then_throws in Hbody as [Hp|(b & _ & Hbody)];
          [by apply peek_never_throws in Hp|].
        discriminate.
      * intros Hthrows. apply and_then_throws in Hthrows
          as [Hloop|(band & _ & Hret)]; [|discriminate].
        revert Hloop. apply pixel_loop_never_throws.
        intros y x b0 what' Hbody.
        apply and_then_throws in Hbody as [Hp|(v & _ & Hbody)];
          [by apply peek_never_throws in Hp|].
        discriminate.
    + intros Hd. apply orb_false_iff in Hdim as [Hd1 Hd2].
      apply Nat.ltb_ge in Hd1, Hd2. lia.
Qed.

(** X17.  A three-dimensional array with fewer than three channels is
    converted as the two-dimensional array of the same buffer is: the bytes
    are read one per pixel, whatever the number of channels. *)
Theorem few_channels_read_as_gray (h w c : Z) (data : list byte) :
  c < 3 ->
  numpy_to_image {| shape := [h; w; c]; buffer := data |}
  = numpy_to_image {| shape := [h; w]; buffer := data |}.
Proof.
  intros Hc. unfold numpy_to_image. cbn [shape buffer length nth].
  replace (3 <=? c) with false by (symmetry; apply Z.leb_gt; lia).
  reflexivity.
Qed.

End Images.

(** ** Instances of the further properties that have premises *)

Lemma alphabet_matches_writeback_witness :
  let e := {| e_state := 2; e_label := 0; e_edge := 1; e_domain := 3 |} in
  (dc_first wfa_mixed = true /\ e ∈ qualifying_edges wfa_mixed)
  /\ (model_of_id (wfainfo wfa_mixed) (offsets wfa_mixed)
        (context_id wfa_mixed e)
      = model_of (wfainfo wfa_mixed) (class_of wfa_mixed e)
      /\ cells (alphabet (wfainfo wfa_mixed) (offsets wfa_mixed))
           !! Z.to_nat (context_id wfa_mixed e)
         = Some (symbol_count
                   (model_of (wfainfo wfa_mixed) (class_of wfa_mixed e)))).
Proof.
  intros e.
  assert (He : e ∈ qualifying_edges wfa_mixed)
    by (apply (list_elem_of_lookup_2 _ 1%nat); reflexivity).
  split; [split; [reflexivity|exact He]|].
  apply (alphabet_matches_writeback wfa_mixed e); [reflexivity|exact He].
Defined.

Lemma no_delta_no_delta_class_witness :
  let e := {| e_state := 2; e_label := 0; e_edge := 1; e_domain := 7 |} in
  (delta_approx wfa_dc_ac = false /\ e ∈ qualifying_edges wfa_dc_ac)
  /\ (offset2 (offsets wfa_dc_ac) = offset1 (offsets wfa_dc_ac)
      /\ offset4 (offsets wfa_dc_ac) = offset3 (offsets wfa_dc_ac)
      /\ 0 <= context_id wfa_dc_ac e < offset3 (offsets wfa_dc_ac)
      /\ rpf_of wfa_dc_ac (delta_approx wfa_dc_ac) (e_state e) (e_domain e)
         = (if e_domain e =? 0 then dc_rpf (wfainfo wfa_dc_ac)
            else rpf (wfainfo wfa_dc_ac))).
Proof.
  intros e.
  assert (He : e ∈ qualifying_edges wfa_dc_ac)
    by (apply (list_elem_of_lookup_2 _ 1%nat); reflexivity).
  split; [split; [reflexivity|exact He]|].
  apply (no_delta_no_delta_class wfa_dc_ac e); [reflexivity|exact He].
Defined.

Lemma fixed_point_rounds_nonneg_witness :
  ((0 <= 3 # 1024)%Q /\ ((3 # 1024) * 512 + (1 # 2) < 32768)%Q)
  /\ fixed_point (3 # 1024) = round_nearest ((3 # 1024) * 512)%Q.
Proof.
  assert (H : (0 <= 3 # 1024)%Q) by (vm_compute; discriminate).
  assert (H' : ((3 # 1024) * 512 + (1 # 2) < 32768)%Q)
    by (vm_compute; reflexivity).
  split; [split; [exact H|exact H']|].
  apply (fixed_point_rounds_nonneg (3 # 1024)); [exact H|exact H'].
Defined.

Lemma fixed_point_error_witness :
  ((-32768 <= (-1 # 1) * 512 + (1 # 2))%Q
   /\ ((-1 # 1) * 512 + (1 # 2) < 32768)%Q)
  /\ (((-1 # 1) * 512 - (1 # 2) < inject_Z (fixed_point (-1 # 1)))%Q
      /\ (inject_Z (fixed_point (-1 # 1)) < (-1 # 1) * 512 + (3 # 2))%Q).
Proof.
  assert (H : (-32768 <= (-1 # 1) * 512 + (1 # 2))%Q)
    by (vm_compute; discriminate).
  assert (H' : ((-1 # 1) * 512 + (1 # 2) < 32768)%Q)
    by (vm_compute; reflexivity).
  split; [split; [exact H|exact H']|].
  apply (fixed_point_error (-1 # 1)); [exact H|exact H'].
Defined.

Lemma contexts_valid_for_decoder_witness :
  (2%nat = 0%nat \/ 1 <= offset4 (offsets wfa_mixed))
  /\ exists level_array,
      second_pass (length (qualifying_edges wfa_mixed) + 2) wfa_mixed
      = Done level_array
      /\ length level_array = (length (qualifying_edges wfa_mixed) + 2)%nat
      /\ Forall (fun id => 0 <= id < offset4 (offsets wfa_mixed)) level_array.
Proof.
  assert (H : 2%nat = 0%nat \/ 1 <= offset4 (offsets wfa_mixed))
    by (right; vm_compute; discriminate).
  split; [exact H|].
  apply (contexts_valid_for_decoder wfa_mixed 2). exact H.
Defined.

Lemma read_weights_overwrites_witness :
  let ws := {| w_real := {[ (2%nat, 0%nat, 0%nat) := 7 # 1 ]};
               w_int := {[ (2%nat, 0%nat, 1%nat) := 99 ]} |} in
  let wfa1 := match read_weights 2 wfa_dc_ac sample_input with
              | Done wfa1 => wfa1
              | _ => wfa_dc_ac
              end in
  (@decoder_delivers fiasco
   /\ read_weights 2 wfa_dc_ac sample_input = Done wfa1)
  /\ exists wfa2,
      read_weights 2 (with_weights wfa_dc_ac ws) sample_input = Done wfa2
      /\ (forall e, e ∈ qualifying_edges wfa_dc_ac ->
            weight wfa2 !! e_pos e = weight wfa1 !! e_pos e
            /\ int_weight wfa2 !! e_pos e = int_weight wfa1 !! e_pos e)
      /\ (forall pos, pos ∉ e_pos <$> qualifying_edges wfa_dc_ac ->
            weight wfa2 !! pos = w_real ws !! pos
            /\ int_weight wfa2 !! pos = w_int ws !! pos).
Proof.
  intros ws wfa1.
  assert (H : read_weights 2 wfa_dc_ac sample_input = Done wfa1)
    by (vm_compute; reflexivity).
  split; [split; [exact sample_decoder_delivers|exact H]|].
  apply (read_weights_overwrites wfa_dc_ac ws sample_input 2 wfa1);
    [exact sample_decoder_delivers|exact H].
Defined.

Lemma numpy_to_image_planes_witness :
  (shape sample_rgb = [2; 2; 3] /\ @allocates sample_library 2 2 true
   /\ 0 <= 2 < 2 ^ 32 /\ 0 <= 2 < 2 ^ 32 /\ 3 <= 3
   /\ 2 * 2 * 3 < 2 ^ 32
   /\ 2 * 2 * 3 <= Z.of_nat (length (buffer sample_rgb)))
  /\ exists img,
      @numpy_to_image sample_library sample_rgb = Returns img
      /\ width img = 2 /\ height img = 2 /\ color img = true
      /\ length (band0 img) = Z.to_nat (2 * 2)
      /\ length (band1 img) = Z.to_nat (2 * 2)
      /\ length (band2 img) = Z.to_nat (2 * 2)
      /\ forall k r g b,
           (k < Z.to_nat (2 * 2))%nat ->
           buffer sample_rgb !! (3 * k)%nat = Some r ->
           buffer sample_rgb !! (3 * k + 1)%nat = Some g ->
           buffer sample_rgb !! (3 * k + 2)%nat = Some b ->
           band0 img !! k
           = Some (luma (byte_val r) (byte_val g) (byte_val b))
           /\ band1 img !! k
              = Some (chroma_blue (byte_val r) (byte_val g) (byte_val b))
           /\ band2 img !! k
              = Some (chroma_red (byte_val r) (byte_val g) (byte_val b)).
Proof.
  split; [repeat split; simpl; lia|].
  apply (@numpy_to_image_planes sample_library sample_rgb 2 2 3);
    [reflexivity|reflexivity|lia|lia|lia|lia|simpl; lia].
Defined.

Lemma image_to_numpy_pixels_witness :
  (color sample_ycbcr = true
   /\ 0 <= height sample_ycbcr < 2 ^ 32 /\ 0 <= width sample_ycbcr < 2 ^ 32
   /\ height sample_ycbcr * width sample_ycbcr < 2 ^ 32
   /\ (Z.to_nat (height sample_ycbcr * width sample_ycbcr)
       <= length (band0 sample_ycbcr))%nat
   /\ (Z.to_nat (height sample_ycbcr * width sample_ycbcr)
       <= length (band1 sample_ycbcr))%nat
   /\ (Z.to_nat (height sample_ycbcr * width sample_ycbcr)
       <= length (band2 sample_ycbcr))%nat)
  /\ exists a,
      image_to_numpy (Some sample_ycbcr) = Returns a
      /\ shape a = [height sample_ycbcr; width sample_ycbcr; 3]
      /\ length (buffer a)
         = (Z.to_nat (height sample_ycbcr * width sample_ycbcr) * 3)%nat
      /\ forall k p0 p1 p2,
           (k < Z.to_nat (height sample_ycbcr * width sample_ycbcr))%nat ->
           band0 sample_ycbcr !! k = Some p0 ->
           band1 sample_ycbcr !! k = Some p1 ->
           band2 sample_ycbcr !! k = Some p2 ->
           buffer a !! (3 * k)%nat
           = Some (to_uint8 (clamp255 (red_of p0 p1 p2)))
           /\ buffer a !! (3 * k + 1)%nat
              = Some (to_uint8 (clamp255 (green_of p0 p1 p2)))
           /\ buffer a !! (3 * k + 2)%nat
              = Some (to_uint8 (clamp255 (blue_of p0 p1 p2))).
Proof.
  split; [repeat split; simpl; lia|].
  apply (image_to_numpy_pixels sample_ycbcr);
    [reflexivity|simpl; lia..].
Defined.

Lemma image_to_numpy_gray_clamps_witness :
  (color sample_luma = false
   /\ 0 <= height sample_luma < 2 ^ 32 /\ 0 <= width sample_luma < 2 ^ 32
   /\ height sample_luma * width sample_luma < 2 ^ 32
   /\ (Z.to_nat (height sample_luma * width sample_luma)
       <= length (band0 sample_luma))%nat)
  /\ exists a,
      image_to_numpy (Some sample_luma) = Returns a
      /\ shape a = [height sample_luma; width sample_luma]
      /\ length (buffer a) = Z.to_nat (height sample_luma * width sample_luma)
      /\ forall k p,
           (k < Z.to_nat (height sample_luma * width sample_luma))%nat ->
           band0 sample_luma !! k = Some p ->
           exists b, buffer a !! k = Some b
                     /\ byte_val b = Z.max 0 (Z.min 255 p).
Proof.
  split; [repeat split; simpl; lia|].
  apply (image_to_numpy_gray_clamps sample_luma);
    [reflexivity|simpl; lia..].
Defined.

Lemma gray_round_trip_witness :
  (shape sample_gray = [2; 4] /\ @allocates sample_library 4 2 false
   /\ 0 <= 2 < 2 ^ 32 /\ 0 <= 4 < 2 ^ 32 /\ 2 * 4 < 2 ^ 32
   /\ Z.of_nat (length (buffer sample_gray)) = 2 * 4)
  /\ (do* img := @numpy_to_image sample_library sample_gray in
      image_to_numpy (Some img))
     = Returns sample_gray.
Proof.
  split; [repeat split; simpl; lia|].
  apply (@gray_round_trip sample_library sample_gray 2 4);
    [reflexivity|reflexivity|lia|lia|lia|reflexivity].
Defined.

Lemma color_round_trip_witness :
  (shape sample_rgb = [2; 2; 3] /\ @allocates sample_library 2 2 true
   /\ 0 <= 2 < 2 ^ 32 /\ 0 <= 2 < 2 ^ 32 /\ 2 * 2 * 3 < 2 ^ 32
   /\ Z.of_nat (length (buffer sample_rgb)) = 2 * 2 * 3)
  /\ exists a',
      (do* img := @numpy_to_image sample_library sample_rgb in
       image_to_numpy (Some img))
      = Returns a'
      /\ shape a' = shape sample_rgb
      /\ length (buffer a') = length (buffer sample_rgb)
      /\ forall i b b',
           buffer sample_rgb !! i = Some b -> buffer a' !! i = Some b' ->
           Z.abs (byte_val b' - byte_val b)
           <= (if (i mod 3 =? 2)%nat then 3 else 2).
Proof.
  split; [repeat split; simpl; lia|].
  apply (@color_round_trip sample_library sample_rgb 2 2);
    [reflexivity|reflexivity|lia|lia|lia|reflexivity].
Defined.

Lemma few_channels_read_as_gray_witness :
  2 < 3
  /\ @numpy_to_image sample_library
       {| shape := [2; 4; 2]; buffer := buffer sample_gray |}
     = @numpy_to_image sample_library
         {| shape := [2; 4]; buffer := buffer sample_gray |}.
Proof.
  split; [lia|].
  apply (@few_channels_read_as_gray sample_library 2 4 2 (buffer sample_gray)).
  lia.
Defined.
